(** * cvs2svn_lib/symbol_strategy.py: rule chains deciding how CVS symbols
    are converted.

    The development embeds the rule classes and [RuleBasedSymbolStrategy]
    of [symbol_strategy.py].  Objects that the Python code only reads
    (statistics records) live in a store that every operation threads
    through, so that the absence of mutation is a theorem and not a
    convention.  The [re] module of the Python library is modelled on a
    documented fragment of its pattern syntax. *)

From Stdlib Require Import List String Ascii ZArith Bool Lia Arith.
From Stdlib Require Import Permutation.
Import ListNotations.

Local Open Scope string_scope.
Local Open Scope list_scope.

(* ================================================================== *)
(** * Characters used by the pattern syntax *)

Module Chars.

Definition newline : ascii := ascii_of_nat 10.
Definition backslash : ascii := ascii_of_nat 92.

Definition in_range (lo hi : nat) (c : ascii) : bool :=
  let n := nat_of_ascii c in ((lo <=? n) && (n <=? hi))%nat.

(** ASCII letters and digits: a backslash in front of one of them
    starts a special sequence ([\d], [\b], [\1], ...). *)
Definition is_alnum (c : ascii) : bool :=
  in_range 48 57 c || in_range 65 90 c || in_range 97 122 c.

End Chars.

(* ================================================================== *)
(** * The [re] module, on a fragment of its syntax

    [re] is the Python library's module, not part of cvs2svn.  The model
    covers patterns written with literal characters, [.], [^], [$],
    [|], capturing groups [( )], the greedy repetitions [*], [+], [?]
    and a backslash in front of a character that is neither a letter nor
    a digit.  On a pattern that uses anything else (a character class,
    a counted repetition, an extension group, a special sequence, a
    repetition applied to a repetition or to a group that contains one)
    the model is silent: [compile] answers [Unsupported].  No flag is
    passed by the caller, so [^] only matches at the start of the
    subject, [$] at its end or in front of a final newline, and [.]
    anything but a newline. *)

Module re.

Inductive repeat_kind := Star | Plus | Opt.

Inductive regexp :=
| Eps                                   (* the empty sequence *)
| Lit (c : ascii)
| AnyChar                               (* [.] *)
| Bol                                   (* [^] *)
| Eol                                   (* [$] *)
| Cat (r1 r2 : regexp)
| Alt (r1 r2 : regexp)
| Group (r : regexp)
| Repeat (k : repeat_kind) (r : regexp).

(** What [re.compile] does with a pattern: a compiled expression, the
    exception [re.error], or a pattern outside the modelled fragment. *)
Inductive compiled :=
| Compiled (r : regexp)
| error
| Unsupported.

(** ** Parsing *)

(** One nesting level of the parser: the alternatives already closed
    by a [|] and the items of the alternative being read, both most
    recent first. *)
Record frame := mkFrame { alts : list regexp; items : list regexp }.

Definition empty_frame : frame := mkFrame [] [].

Definition push (r : regexp) (f : frame) : frame :=
  mkFrame (alts f) (r :: items f).

Definition sequence (rev_items : list regexp) : regexp :=
  fold_left (fun acc r => Cat r acc) rev_items Eps.

Definition new_alternative (f : frame) : frame :=
  mkFrame (sequence (items f) :: alts f) [].

Definition close (f : frame) : regexp :=
  fold_left (fun acc r => Alt r acc) (alts f) (sequence (items f)).

Definition is_anchor (r : regexp) : bool :=
  match r with Bol | Eol => true | _ => false end.

Fixpoint has_repeat (r : regexp) : bool :=
  match r with
  | Repeat _ _ => true
  | Cat r1 r2 | Alt r1 r2 => has_repeat r1 || has_repeat r2
  | Group r => has_repeat r
  | _ => false
  end.

Definition repeat_kind_of (c : ascii) : option repeat_kind :=
  if Ascii.eqb c "*" then Some Star
  else if Ascii.eqb c "+" then Some Plus
  else if Ascii.eqb c "?" then Some Opt
  else None.

(** A repetition character applies to the last item of the current
    alternative.  With no item, or an anchor as item, the parser raises
    its nothing-to-repeat error ([Some None]).  An item that is a
    repetition, or a group with a repetition inside, is left outside the
    model ([None]): this is where the lazy and possessive forms live,
    and where the versions of the library do not agree on what is an
    error. *)
Definition quantify (k : repeat_kind) (f : frame) : option (option frame) :=
  match items f with
  | [] => Some None
  | it :: before =>
      if is_anchor it then Some None
      else if has_repeat it then None
      else Some (Some (mkFrame (alts f) (Repeat k it :: before)))
  end.

Fixpoint parse (cs : list ascii) (stack : list frame) (top : frame)
  : compiled :=
  match cs with
  | [] =>
      match stack with
      | [] => Compiled (close top)
      | _ :: _ => error                 (* missing [)] *)
      end
  | c :: rest =>
      if Ascii.eqb c Chars.backslash then
        match rest with
        | [] => error                   (* escape at end of pattern *)
        | e :: rest' =>
            if Chars.is_alnum e then Unsupported
            else parse rest' stack (push (Lit e) top)
        end
      else if Ascii.eqb c "(" then
        match rest with
        | "?"%char :: _ => Unsupported
        | _ => parse rest (top :: stack) empty_frame
        end
      else if Ascii.eqb c ")" then
        match stack with
        | [] => error                   (* unbalanced parenthesis *)
        | outer :: stack' => parse rest stack' (push (Group (close top)) outer)
        end
      else if Ascii.eqb c "|" then parse rest stack (new_alternative top)
      else if Ascii.eqb c "[" || Ascii.eqb c "{" then Unsupported
      else if Ascii.eqb c "." then parse rest stack (push AnyChar top)
      else if Ascii.eqb c "^" then parse rest stack (push Bol top)
      else if Ascii.eqb c "$" then parse rest stack (push Eol top)
      else
        match repeat_kind_of c with
        | Some k =>
            match quantify k top with
            | Some (Some top') => parse rest stack top'
            | Some None => error        (* nothing to repeat *)
            | None => Unsupported
            end
        | None => parse rest stack (push (Lit c) top)
        end
  end.

Definition compile (pattern : string) : compiled :=
  parse (list_ascii_of_string pattern) [] empty_frame.

(** The characters that the parser does not take for themselves. *)
Definition is_special (c : ascii) : bool :=
  existsb (Ascii.eqb c)
    [Chars.backslash; "("; ")"; "|"; "["; "{"; "."; "^"; "$"; "*"; "+";
     "?"]%char.

(** A pattern made of ordinary characters only. *)
Definition is_literal (pattern : string) : bool :=
  forallb (fun c => negb (is_special c)) (list_ascii_of_string pattern).

(** What is left of [subject] behind the prefix [cs], if it starts
    with it. *)
Fixpoint strip_prefix (cs subject : list ascii) : option (list ascii) :=
  match cs, subject with
  | [], _ => Some subject
  | c :: cs', x :: subject' =>
      if Ascii.eqb x c then strip_prefix cs' subject' else None
  | _ :: _, [] => None
  end.

(** ** Matching *)

(** A position in the subject: how many characters lie behind it and
    the characters still ahead. *)
Definition position := (nat * list ascii)%type.

Definition at_end (rest : list ascii) : bool :=
  match rest with
  | [] => true
  | [c] => Ascii.eqb c Chars.newline
  | _ => false
  end.

(** The body of a repetition is tried again only from a position it
    has advanced to, as the engine does to stay out of empty loops. *)
Fixpoint iterate (fuel : nat) (step : position -> list position)
  (p : position) : list position :=
  p :: match fuel with
       | 0 => []
       | S fuel' =>
           flat_map (iterate fuel' step)
             (filter (fun q => (fst p <? fst q)%nat) (step p))
       end.

(** All positions at which a match of [r] that starts at [p] can end. *)
Fixpoint ends (r : regexp) (p : position) : list position :=
  match r with
  | Eps => [p]
  | Lit c =>
      match snd p with
      | x :: rest => if Ascii.eqb x c then [(S (fst p), rest)] else []
      | [] => []
      end
  | AnyChar =>
      match snd p with
      | x :: rest =>
          if Ascii.eqb x Chars.newline then [] else [(S (fst p), rest)]
      | [] => []
      end
  | Bol => if (fst p =? 0)%nat then [p] else []
  | Eol => if at_end (snd p) then [p] else []
  | Cat r1 r2 => flat_map (ends r2) (ends r1 p)
  | Alt r1 r2 => ends r1 p ++ ends r2 p
  | Group r => ends r p
  | Repeat Star r => iterate (List.length (snd p)) (ends r) p
  | Repeat Plus r =>
      flat_map (iterate (List.length (snd p)) (ends r)) (ends r p)
  | Repeat Opt r => p :: ends r p
  end.

Definition start (subject : string) : position :=
  (0, list_ascii_of_string subject).

(** [regexp.match(subject)], as a truth value: a match object when
    some match starts at the beginning of the subject, [None]
    otherwise. *)
Definition match_ (r : regexp) (subject : string) : bool :=
  match ends r (start subject) with
  | [] => false
  | _ :: _ => true
  end.

(** The pattern matches the entire subject ([regexp.fullmatch]): some
    match that starts at the beginning ends after the last
    character. *)
Definition fullmatch (r : regexp) (subject : string) : bool :=
  existsb (fun q => match snd q with [] => true | _ => false end)
    (ends r (start subject)).

End re.

(* ================================================================== *)
(** * Symbols and their statistics *)

(** Modelled from the spec: [cvs2svn_lib/symbol.py] is not part of the
    sources.  A symbol identity is a name and an opaque numeric id. *)
Record Symbol := mkSymbol { id : Z; name : string }.

(** Modelled from the spec: the classes [Branch], [Tag] and
    [ExcludedSymbol] of [cvs2svn_lib/symbol.py], which is not part of the
    sources; an instance wraps the symbol it was built from. *)
Inductive TypedSymbol :=
| Branch (symbol : Symbol)
| Tag (symbol : Symbol)
| ExcludedSymbol (symbol : Symbol).

Definition wrapped (t : TypedSymbol) : Symbol :=
  match t with Branch s | Tag s | ExcludedSymbol s => s end.

(** Modelled from the spec: the class object of [cvs2svn_lib/symbol.py]
    that a pattern rule keeps in [self.action]; calling it on a symbol
    builds the instance that wraps the symbol. *)
Inductive TypedSymbolClass := BranchClass | TagClass | ExcludedSymbolClass.

Definition instantiate (action : TypedSymbolClass) (s : Symbol) : TypedSymbol :=
  match action with
  | BranchClass => Branch s
  | TagClass => Tag s
  | ExcludedSymbolClass => ExcludedSymbol s
  end.

(** Modelled from the spec: the statistics class belongs to the
    collector, which is not part of the sources.  It exposes the symbol
    and three counters; the counters are Python integers. *)
Record SymbolStatistics := mkStats {
  symbol : Symbol;
  tag_create_count : Z;
  branch_create_count : Z;
  branch_commit_count : Z
}.

(* ================================================================== *)
(** * Rules as objects *)

(** An instance of one of the rule classes.  The three pattern classes
    differ only in the action they hand to [_RegexpStrategyRule.__init__],
    so an instance is its two attributes. *)
Inductive Rule :=
| RegexpStrategyRule (regexp : re.regexp) (action : TypedSymbolClass)
| UnambiguousUsageRule
| BranchIfCommitsRule
| HeuristicStrategyRule
| AllBranchRule
| AllTagRule.

(** Modelled from the spec: the exception class [FatalError] comes from
    [cvs2svn_lib/common.py], which is not part of the sources; it is the
    fatal configuration error, kept here with the pattern that its
    message quotes.  A constructor call ends with the instance, with
    that exception, or on a pattern on which the model of [re] is
    silent. *)
Inductive construction :=
| Instance (rule : Rule)
| FatalError (pattern : string)
| OutsideModel.

(* ================================================================== *)
(** * The store and the state monad *)

(** A statistics object is known by its reference. *)
Definition ref := nat.

(** Modelled from the spec: [error_prefix] comes from
    [cvs2svn_lib/common.py] and the text of a statistics object from the
    collector, neither part of the sources.  One call of
    [sys.stderr.write] is kept as what it is about: the fixed
    explanation that starts with [error_prefix], or the line made from
    one statistics object. *)
Inductive written :=
| NotClear
| Line (stats : SymbolStatistics).

(** Everything the methods can reach: the [_rules] list of the
    strategy, the statistics objects, and what went to [sys.stderr]. *)
Record World := mkWorld {
  _rules : list Rule;
  heap : ref -> SymbolStatistics;
  stderr : list written
}.

Definition M (A : Type) : Type := World -> A * World.

Definition ret {A} (a : A) : M A := fun w => (a, w).

Definition bind {A B} (m : M A) (k : A -> M B) : M B :=
  fun w => let (a, w') := m w in k a w'.

Declare Scope py_scope.
Delimit Scope py_scope with py.
Notation "x <- m ;; k" := (bind m (fun x => k))
  (at level 100, m at next level, right associativity) : py_scope.
Notation "m ;; k" := (bind m (fun _ => k))
  (at level 100, right associativity) : py_scope.
Local Open Scope py_scope.

(** [stats.field] *)
Definition getattr {A} (stats : ref) (field : SymbolStatistics -> A) : M A :=
  fun w => (field (heap w stats), w).

(** [self._rules] *)
Definition self_rules : M (list Rule) := fun w => (_rules w, w).

Definition set_rules (rules : list Rule) : M unit :=
  fun w => (tt, mkWorld rules (heap w) (stderr w)).

Definition stderr_write (x : written) : M unit :=
  fun w => (tt, mkWorld (_rules w) (heap w) (stderr w ++ [x])).

(* ================================================================== *)
(** * The rule classes *)

Module _RegexpStrategyRule.

Definition __init__ (pattern : string) (action : TypedSymbolClass)
  : construction :=
  match re.compile ("^" ++ pattern ++ "$") with
  | re.Compiled regexp => Instance (RegexpStrategyRule regexp action)
  | re.error => FatalError pattern
  | re.Unsupported => OutsideModel
  end.

Definition get_symbol (regexp : re.regexp) (action : TypedSymbolClass)
  (stats : ref) : M (option TypedSymbol) :=
  subject <- getattr stats (fun s => name (symbol s)) ;;
  if re.match_ regexp subject then
    s <- getattr stats symbol ;;
    ret (Some (instantiate action s))
  else ret None.

End _RegexpStrategyRule.

Module ForceBranchRegexpStrategyRule.

Definition __init__ (pattern : string) : construction :=
  _RegexpStrategyRule.__init__ pattern BranchClass.

End ForceBranchRegexpStrategyRule.

Module ForceTagRegexpStrategyRule.

Definition __init__ (pattern : string) : construction :=
  _RegexpStrategyRule.__init__ pattern TagClass.

End ForceTagRegexpStrategyRule.

Module ExcludeRegexpStrategyRule.

Definition __init__ (pattern : string) : construction :=
  _RegexpStrategyRule.__init__ pattern ExcludedSymbolClass.

End ExcludeRegexpStrategyRule.

Module UnambiguousUsageRule.

Definition get_symbol (stats : ref) : M (option TypedSymbol) :=
  tag_creates <- getattr stats tag_create_count ;;
  let is_tag := (tag_creates >? 0)%Z in
  branch_creates <- getattr stats branch_create_count ;;
  is_branch <- (if (branch_creates >? 0)%Z then ret true
                else (commits <- getattr stats branch_commit_count ;;
                      ret (commits >? 0)%Z)) ;;
  if is_tag && is_branch then ret None        (* Can't decide *)
  else if is_branch then
    s <- getattr stats symbol ;; ret (Some (Branch s))
  else if is_tag then
    s <- getattr stats symbol ;; ret (Some (Tag s))
  else ret None.                  (* The symbol didn't appear at all *)

End UnambiguousUsageRule.

Module BranchIfCommitsRule.

Definition get_symbol (stats : ref) : M (option TypedSymbol) :=
  commits <- getattr stats branch_commit_count ;;
  if (commits >? 0)%Z then
    s <- getattr stats symbol ;; ret (Some (Branch s))
  else ret None.

End BranchIfCommitsRule.

Module HeuristicStrategyRule.

Definition get_symbol (stats : ref) : M (option TypedSymbol) :=
  tag_creates <- getattr stats tag_create_count ;;
  branch_creates <- getattr stats branch_create_count ;;
  if (tag_creates >=? branch_creates)%Z then
    s <- getattr stats symbol ;; ret (Some (Tag s))
  else
    s <- getattr stats symbol ;; ret (Some (Branch s)).

End HeuristicStrategyRule.

Module AllBranchRule.

Definition get_symbol (stats : ref) : M (option TypedSymbol) :=
  s <- getattr stats symbol ;; ret (Some (Branch s)).

End AllBranchRule.

Module AllTagRule.

Definition get_symbol (stats : ref) : M (option TypedSymbol) :=
  s <- getattr stats symbol ;; ret (Some (Tag s)).

End AllTagRule.

(** [rule.get_symbol(stats)]: the method of the class of the instance. *)
Definition get_symbol (rule : Rule) (stats : ref) : M (option TypedSymbol) :=
  match rule with
  | RegexpStrategyRule regexp action =>
      _RegexpStrategyRule.get_symbol regexp action stats
  | UnambiguousUsageRule => UnambiguousUsageRule.get_symbol stats
  | BranchIfCommitsRule => BranchIfCommitsRule.get_symbol stats
  | HeuristicStrategyRule => HeuristicStrategyRule.get_symbol stats
  | AllBranchRule => AllBranchRule.get_symbol stats
  | AllTagRule => AllTagRule.get_symbol stats
  end.

(* ================================================================== *)
(** * [RuleBasedSymbolStrategy] *)

Module RuleBasedSymbolStrategy.

Definition __init__ : M unit := set_rules [].

Definition add_rule (rule : Rule) : M unit :=
  rules <- self_rules ;; set_rules (rules ++ [rule]).

(** The [for rule in self._rules] loop with its early [return]; the
    [else] branch of the loop is the empty list. *)
Fixpoint _get_symbol_for (rules : list Rule) (stats : ref)
  : M (option TypedSymbol) :=
  match rules with
  | [] => ret None
  | rule :: rules' =>
      s <- get_symbol rule stats ;;
      match s with
      | Some t => ret (Some t)
      | None => _get_symbol_for rules' stats
      end
  end.

Definition _get_symbol (stats : ref) : M (option TypedSymbol) :=
  rules <- self_rules ;; _get_symbol_for rules stats.

(** The first loop of [get_symbols], with its two local lists. *)
Fixpoint get_symbols_for (symbol_stats : list ref)
  (symbols : list TypedSymbol) (mismatches : list ref)
  : M (list TypedSymbol * list ref) :=
  match symbol_stats with
  | [] => ret (symbols, mismatches)
  | stats :: rest =>
      s <- _get_symbol stats ;;
      match s with
      | Some t => get_symbols_for rest (symbols ++ [t]) mismatches
      | None =>
          (* None of the rules covered this symbol. *)
          get_symbols_for rest symbols (mismatches ++ [stats])
      end
  end.

(** The loop that writes one line for each mismatch. *)
Fixpoint write_mismatches (mismatches : list ref) : M unit :=
  match mismatches with
  | [] => ret tt
  | stats :: rest =>
      s <- getattr stats (fun s => s) ;;
      stderr_write (Line s) ;;
      write_mismatches rest
  end.

Definition get_symbols (symbol_stats : list ref)
  : M (option (list TypedSymbol)) :=
  r <- get_symbols_for symbol_stats [] [] ;;
  match snd r with
  | _ :: _ =>
      stderr_write NotClear ;;
      write_mismatches (snd r) ;;
      ret None
  | [] => ret (Some (fst r))
  end.

End RuleBasedSymbolStrategy.

Import RuleBasedSymbolStrategy.

(** The strategy whose rules were appended in the order of the list:
    [RuleBasedSymbolStrategy()] followed by one [add_rule] for each. *)
Fixpoint add_rules (rules : list Rule) : M unit :=
  match rules with
  | [] => ret tt
  | rule :: rest => add_rule rule ;; add_rules rest
  end.

Definition strategy (rules : list Rule) : M unit :=
  RuleBasedSymbolStrategy.__init__ ;; add_rules rules.

(* ================================================================== *)
(** * Vocabulary for the statements *)

(** What a rule answers for a record, read off the record alone: the
    rule is run on a store that holds nothing but this record. *)
Definition answer (rule : Rule) (s : SymbolStatistics) : option TypedSymbol :=
  fst (get_symbol rule 0 (mkWorld [] (fun _ => s) [])).

(** The world after [sys.stderr] received [out]. *)
Definition printed (out : list written) (w : World) : World :=
  mkWorld (_rules w) (heap w) (stderr w ++ out).

(** The world in which the strategy holds [rules]. *)
Definition with_rules (rules : list Rule) (w : World) : World :=
  mkWorld rules (heap w) (stderr w).

(** Whether the chain of [w] leaves the record behind [stats] without a
    classification. *)
Definition uncovered (w : World) (stats : ref) : bool :=
  match fst (_get_symbol stats w) with
  | Some _ => false
  | None => true
  end.

(** What the chain made of [rules] answers for a record, read off the
    record alone: [_get_symbol] is run on a strategy that holds [rules]
    and a store that holds nothing but this record. *)
Definition chain_answer (rules : list Rule) (s : SymbolStatistics)
  : option TypedSymbol :=
  fst (_get_symbol 0 (mkWorld rules (fun _ => s) [])).

(** A name that holds no newline, as every CVS symbol name. *)
Definition one_line (subject : string) : bool :=
  forallb (fun c => negb (Ascii.eqb c Chars.newline))
    (list_ascii_of_string subject).

(** ** Sample data *)

Definition no_stats : SymbolStatistics := mkStats (mkSymbol 0 "") 0 0 0.

(** A store that holds the given records at the references 0, 1, ... *)
Definition store_of (records : list SymbolStatistics) : ref -> SymbolStatistics :=
  fun r => nth r records no_stats.

Definition world_of (rules : list Rule) (records : list SymbolStatistics)
  : World :=
  mkWorld rules (store_of records) [].

(** Used as a tag and as a branch; only a branch, with commits; only a
    tag; never used. *)
Definition usage_samples : list SymbolStatistics :=
  [ mkStats (mkSymbol 1 "both") 1 1 0;
    mkStats (mkSymbol 2 "work") 0 0 2;
    mkStats (mkSymbol 3 "rel-1") 3 0 0;
    mkStats (mkSymbol 4 "unused") 0 0 0 ].

Definition usage_world : World := world_of [] usage_samples.

(** The same records in front of a chain without a catch-all, and in
    front of chains that end with one. *)
Definition unambiguous_world : World :=
  world_of [UnambiguousUsageRule] usage_samples.

Definition all_branch_world : World := world_of [AllBranchRule] usage_samples.

Definition default_tag_world : World :=
  world_of [BranchIfCommitsRule; UnambiguousUsageRule; AllTagRule]
    usage_samples.

(** A strategy that has no rule yet. *)
Definition no_rule_world : World := world_of [] usage_samples.

(** A chain of the two rules that look at usage and abstain otherwise. *)
Definition careful_world : World :=
  world_of [BranchIfCommitsRule; UnambiguousUsageRule] usage_samples.

(** A symbol with commits on it that was never created as a branch or as
    a tag. *)
Definition commits_only : SymbolStatistics :=
  mkStats (mkSymbol 5 "vendor") 0 0 7.

Definition commits_only_world : World := world_of [] [commits_only].

(** The usage samples again, with other rules, something already on
    [sys.stderr], and one more object in the store. *)
Definition later_world : World :=
  mkWorld [UnambiguousUsageRule]
    (store_of (usage_samples ++ [commits_only]))
    [Line commits_only].

(** Names on which the pattern rules are tried. *)
Definition name_samples : list SymbolStatistics :=
  [ mkStats (mkSymbol 1 "foo") 0 1 0;
    mkStats (mkSymbol 2 "foobar") 0 1 0;
    mkStats (mkSymbol 3 "xfoo") 0 1 0;
    mkStats (mkSymbol 4 "bar") 0 1 0 ].

Definition name_world : World := world_of [] name_samples.

(** The three characters f, o, o followed by one backslash. *)
Definition foo_backslash : string := "foo" ++ String Chars.backslash "".

(** Equal counts, both zero, more branches than tags. *)
Definition tie_samples : list SymbolStatistics :=
  [ mkStats (mkSymbol 1 "tie") 2 2 0;
    mkStats (mkSymbol 2 "zero") 0 0 0;
    mkStats (mkSymbol 3 "dev") 1 4 0 ].

Definition tie_world : World := world_of [] tie_samples.

(* ================================================================== *)
(** * Reading the store leaves it alone *)

Ltac run :=
  unfold _RegexpStrategyRule.get_symbol, UnambiguousUsageRule.get_symbol,
    BranchIfCommitsRule.get_symbol, HeuristicStrategyRule.get_symbol,
    AllBranchRule.get_symbol, AllTagRule.get_symbol,
    bind, ret, getattr, self_rules; cbn [fst snd].

Lemma get_symbol_answer (rule : Rule) (stats : ref) (w : World) :
  get_symbol rule stats w = (answer rule (heap w stats), w).
Proof.
  unfold answer.
  destruct rule; cbn [get_symbol]; run; cbn -[Z.gtb Z.geb re.match_];
    repeat match goal with
      | |- context [if ?b then _ else _] =>
          destruct b; cbn -[Z.gtb Z.geb re.match_]
      end; reflexivity.
Qed.

Lemma _get_symbol_for_cons (rule : Rule) (rules : list Rule) (stats : ref)
  (w : World) :
  _get_symbol_for (rule :: rules) stats w =
  match answer rule (heap w stats) with
  | Some t => (Some t, w)
  | None => _get_symbol_for rules stats w
  end.
Proof.
  cbn [_get_symbol_for]. unfold bind. rewrite get_symbol_answer.
  destruct (answer rule (heap w stats)); reflexivity.
Qed.

Lemma _get_symbol_for_frame (rules : list Rule) (stats : ref) (w : World) :
  snd (_get_symbol_for rules stats w) = w.
Proof.
  induction rules as [|rule rules IH]; [reflexivity|].
  rewrite _get_symbol_for_cons.
  destruct (answer rule (heap w stats)); [reflexivity | exact IH].
Qed.

Lemma _get_symbol_frame (stats : ref) (w : World) :
  snd (_get_symbol stats w) = w.
Proof. unfold _get_symbol; run. apply _get_symbol_for_frame. Qed.

Lemma _get_symbol_eta (stats : ref) (w : World) :
  _get_symbol stats w = (fst (_get_symbol stats w), w).
Proof.
  rewrite <- (_get_symbol_frame stats w) at 3.
  apply surjective_pairing.
Qed.

Lemma world_eta (w : World) : mkWorld (_rules w) (heap w) (stderr w) = w.
Proof. destruct w; reflexivity. Qed.

Lemma printed_nil (w : World) : printed [] w = w.
Proof. unfold printed. rewrite app_nil_r. apply world_eta. Qed.

Lemma printed_printed (a b : list written) (w : World) :
  printed b (printed a w) = printed (a ++ b) w.
Proof. unfold printed; cbn. now rewrite app_assoc. Qed.

(** ** The loops of [get_symbols] *)

Lemma get_symbols_for_run (symbol_stats : list ref) :
  forall (symbols : list TypedSymbol) (mismatches : list ref) (w : World),
    get_symbols_for symbol_stats symbols mismatches w =
    ((symbols ++
        flat_map (fun stats => match fst (_get_symbol stats w) with
                               | Some t => [t]
                               | None => []
                               end) symbol_stats,
      mismatches ++ filter (uncovered w) symbol_stats), w).
Proof.
  induction symbol_stats as [|stats rest IH]; intros symbols mismatches w.
  - cbn. now rewrite !app_nil_r.
  - cbn [get_symbols_for flat_map filter]. unfold bind, uncovered.
    rewrite (_get_symbol_eta stats w).
    destruct (fst (_get_symbol stats w)) as [t|]; rewrite IH;
      cbn [fst]; now rewrite <- ?app_assoc.
Qed.

Lemma write_mismatches_run (mismatches : list ref) :
  forall w : World,
    write_mismatches mismatches w =
    (tt, printed (map (fun stats => Line (heap w stats)) mismatches) w).
Proof.
  induction mismatches as [|stats rest IH]; intros w.
  - cbn. now rewrite printed_nil.
  - cbn [write_mismatches map]. unfold bind, getattr, stderr_write.
    rewrite IH. cbn [heap]. fold (printed [Line (heap w stats)] w).
    now rewrite printed_printed.
Qed.

Lemma get_symbols_run (symbol_stats : list ref) (w : World) :
  get_symbols symbol_stats w =
  match filter (uncovered w) symbol_stats with
  | [] =>
      (Some (flat_map (fun stats => match fst (_get_symbol stats w) with
                                    | Some t => [t]
                                    | None => []
                                    end) symbol_stats), w)
  | (_ :: _) as mismatches =>
      (None,
       printed (NotClear :: map (fun stats => Line (heap w stats)) mismatches) w)
  end.
Proof.
  unfold get_symbols, bind. rewrite get_symbols_for_run. cbn [snd fst app].
  destruct (filter (uncovered w) symbol_stats) as [|m ms]; [reflexivity|].
  unfold stderr_write. fold (printed [NotClear] w).
  rewrite write_mismatches_run. unfold ret.
  rewrite printed_printed. reflexivity.
Qed.

(* ================================================================== *)
(** * The statistical rules *)

(** C4: [UnambiguousUsageRule], with [is_tag] meaning
    [tag_create_count > 0] and [is_branch] meaning
    [branch_create_count > 0 or branch_commit_count > 0], abstains when
    both hold, answers [Branch] when only [is_branch] holds, [Tag] when
    only [is_tag] holds, and abstains when neither holds. *)
Theorem UnambiguousUsageRule_decides (stats : ref) (w : World) :
  let s := heap w stats in
  let is_tag := (tag_create_count s > 0)%Z in
  let is_branch :=
    (branch_create_count s > 0 \/ branch_commit_count s > 0)%Z in
  let result := fst (get_symbol UnambiguousUsageRule stats w) in
  (is_tag /\ is_branch -> result = None) /\
  (~ is_tag /\ is_branch -> result = Some (Branch (symbol s))) /\
  (is_tag /\ ~ is_branch -> result = Some (Tag (symbol s))) /\
  (~ is_tag /\ ~ is_branch -> result = None).
Proof.
  cbv zeta. cbn [get_symbol]. run.
  destruct (Z.gtb_spec (tag_create_count (heap w stats)) 0);
    destruct (Z.gtb_spec (branch_create_count (heap w stats)) 0);
    destruct (Z.gtb_spec (branch_commit_count (heap w stats)) 0);
    cbn [fst andb]; repeat split; intros [Ht Hb];
    try reflexivity; exfalso; lia.
Qed.

Lemma UnambiguousUsageRule_decides_witness :
  fst (get_symbol UnambiguousUsageRule 0 usage_world) = None /\
  fst (get_symbol UnambiguousUsageRule 1 usage_world)
  = Some (Branch (mkSymbol 2 "work")) /\
  fst (get_symbol UnambiguousUsageRule 2 usage_world)
  = Some (Tag (mkSymbol 3 "rel-1")) /\
  fst (get_symbol UnambiguousUsageRule 3 usage_world) = None.
Proof.
  split; [|split; [|split]].
  - destruct (UnambiguousUsageRule_decides 0 usage_world) as (both & _).
    apply both. cbn. lia.
  - destruct (UnambiguousUsageRule_decides 1 usage_world)
      as (_ & only_branch & _).
    apply only_branch. cbn. lia.
  - destruct (UnambiguousUsageRule_decides 2 usage_world)
      as (_ & _ & only_tag & _).
    apply only_tag. cbn. lia.
  - destruct (UnambiguousUsageRule_decides 3 usage_world)
      as (_ & _ & _ & neither).
    apply neither. cbn. lia.
Defined.

(** C5: [HeuristicStrategyRule] never abstains; it answers [Tag]
    whenever [tag_create_count >= branch_create_count], equal counts and
    two zero counts included, and [Branch] otherwise. *)
Theorem HeuristicStrategyRule_never_abstains (stats : ref) (w : World) :
  let s := heap w stats in
  let result := fst (get_symbol HeuristicStrategyRule stats w) in
  result <> None /\
  ((tag_create_count s >= branch_create_count s)%Z ->
   result = Some (Tag (symbol s))) /\
  ((tag_create_count s < branch_create_count s)%Z ->
   result = Some (Branch (symbol s))).
Proof.
  cbv zeta. cbn [get_symbol]. run.
  destruct (Z.geb_spec (tag_create_count (heap w stats))
              (branch_create_count (heap w stats)));
    cbn [fst]; repeat split; intros; try discriminate; try reflexivity;
    exfalso; lia.
Qed.

Lemma HeuristicStrategyRule_never_abstains_witness :
  fst (get_symbol HeuristicStrategyRule 0 tie_world)
  = Some (Tag (mkSymbol 1 "tie")) /\
  fst (get_symbol HeuristicStrategyRule 1 tie_world)
  = Some (Tag (mkSymbol 2 "zero")) /\
  fst (get_symbol HeuristicStrategyRule 2 tie_world)
  = Some (Branch (mkSymbol 3 "dev")).
Proof.
  split; [|split].
  - destruct (HeuristicStrategyRule_never_abstains 0 tie_world)
      as (_ & tag & _).
    apply tag. cbn. lia.
  - destruct (HeuristicStrategyRule_never_abstains 1 tie_world)
      as (_ & tag & _).
    apply tag. cbn. lia.
  - destruct (HeuristicStrategyRule_never_abstains 2 tie_world)
      as (_ & _ & branch).
    apply branch. cbn. lia.
Defined.

(* ================================================================== *)
(** * Building a strategy *)

Lemma add_rules_run (rules : list Rule) :
  forall w : World,
    add_rules rules w = (tt, with_rules (_rules w ++ rules) w).
Proof.
  induction rules as [|rule rest IH]; intros w.
  - cbn. unfold ret, with_rules. now rewrite app_nil_r, world_eta.
  - cbn [add_rules]. unfold bind, add_rule, self_rules, set_rules, bind.
    rewrite IH. unfold with_rules; cbn. now rewrite <- app_assoc.
Qed.

Lemma strategy_run (rules : list Rule) (w : World) :
  strategy rules w = (tt, with_rules rules w).
Proof.
  unfold strategy, bind, RuleBasedSymbolStrategy.__init__, set_rules.
  rewrite add_rules_run. reflexivity.
Qed.

(** ** What the chain answers *)

Lemma _get_symbol_for_abstain (rules after : list Rule) (stats : ref)
  (w : World) :
  (forall r, In r rules -> answer r (heap w stats) = None) ->
  _get_symbol_for (rules ++ after) stats w = _get_symbol_for after stats w.
Proof.
  induction rules as [|rule rules IH]; intros H; [reflexivity|].
  cbn [app]. rewrite _get_symbol_for_cons, (H rule (or_introl eq_refl)).
  apply IH. intros r Hr. apply H. now right.
Qed.

Lemma _get_symbol_for_catch_all (rules : list Rule) (stats : ref) (w : World) :
  In AllBranchRule rules \/ In AllTagRule rules ->
  fst (_get_symbol_for rules stats w) <> None.
Proof.
  induction rules as [|rule rules IH]; intros H.
  - destruct H as [[]|[]].
  - rewrite _get_symbol_for_cons.
    destruct (answer rule (heap w stats)) eqn:E; [discriminate|].
    apply IH. destruct H as [[H|H]|[H|H]]; auto; subst rule; discriminate.
Qed.

Lemma answer_wraps (rule : Rule) (s : SymbolStatistics) (t : TypedSymbol) :
  answer rule s = Some t -> wrapped t = symbol s.
Proof.
  unfold answer. destruct rule; cbn [get_symbol]; run;
    cbn -[Z.gtb Z.geb re.match_];
    repeat match goal with
      | |- context [if ?b then _ else _] =>
          destruct b; cbn -[Z.gtb Z.geb re.match_]
      end;
    intros H; inversion H; try reflexivity.
  now destruct action.
Qed.

Lemma _get_symbol_for_wraps (rules : list Rule) (stats : ref) (w : World)
  (t : TypedSymbol) :
  fst (_get_symbol_for rules stats w) = Some t ->
  wrapped t = symbol (heap w stats).
Proof.
  induction rules as [|rule rules IH]; [discriminate|].
  rewrite _get_symbol_for_cons.
  destruct (answer rule (heap w stats)) eqn:E; [|exact IH].
  cbn. intros H; inversion H; subst. now apply answer_wraps in E.
Qed.

Lemma _get_symbol_wraps (stats : ref) (w : World) (t : TypedSymbol) :
  fst (_get_symbol stats w) = Some t -> wrapped t = symbol (heap w stats).
Proof. unfold _get_symbol; run. apply _get_symbol_for_wraps. Qed.

Lemma answer_regexp (regexp : re.regexp) (action : TypedSymbolClass)
  (s : SymbolStatistics) :
  answer (RegexpStrategyRule regexp action) s =
  if re.match_ regexp (name (symbol s))
  then Some (instantiate action (symbol s)) else None.
Proof.
  unfold answer; cbn [get_symbol]; run. cbn [heap].
  now destruct (re.match_ regexp (name (symbol s))).
Qed.

Lemma fst_get_symbol (rule : Rule) (stats : ref) (w : World) :
  fst (get_symbol rule stats w) = answer rule (heap w stats).
Proof. now rewrite get_symbol_answer. Qed.

Lemma _get_symbol_strategy (rules : list Rule) (stats : ref) (w : World) :
  fst (_get_symbol stats (snd (strategy rules w))) =
  fst (_get_symbol_for rules stats (with_rules rules w)).
Proof. rewrite strategy_run. reflexivity. Qed.

(* ================================================================== *)
(** * The chain: first match wins *)

(** C1: the chain evaluates its rules in the order in which they were
    appended and answers what the first rule that does not abstain
    answers, whatever rules come after it; it abstains when every rule
    does.  With the rules [ForceTag("rel-.*"), AllBranch] the symbol named
    "rel-1" becomes a tag, with the two rules swapped a branch. *)
Theorem first_match_wins :
  (forall (before after : list Rule) (rule : Rule) (stats : ref) (w : World)
          (t : TypedSymbol),
      (forall r, In r before -> fst (get_symbol r stats w) = None) ->
      fst (get_symbol rule stats w) = Some t ->
      fst (_get_symbol stats (snd (strategy (before ++ rule :: after) w)))
      = Some t) /\
  (forall (rules : list Rule) (stats : ref) (w : World),
      (forall r, In r rules -> fst (get_symbol r stats w) = None) ->
      fst (_get_symbol stats (snd (strategy rules w))) = None) /\
  (forall (stats : ref) (w : World),
      name (symbol (heap w stats)) = "rel-1" ->
      exists force_tag : Rule,
        ForceTagRegexpStrategyRule.__init__ "rel-.*" = Instance force_tag /\
        fst (_get_symbol stats (snd (strategy [force_tag; AllBranchRule] w)))
        = Some (Tag (symbol (heap w stats))) /\
        fst (_get_symbol stats (snd (strategy [AllBranchRule; force_tag] w)))
        = Some (Branch (symbol (heap w stats)))).
Proof.
  split; [|split].
  - intros before after rule stats w t Hbefore Hrule.
    rewrite _get_symbol_strategy, _get_symbol_for_abstain.
    + rewrite _get_symbol_for_cons. cbn [with_rules heap].
      rewrite fst_get_symbol in Hrule. now rewrite Hrule.
    + intros r Hr. rewrite <- (Hbefore r Hr), fst_get_symbol. reflexivity.
  - intros rules stats w Hall.
    rewrite _get_symbol_strategy.
    rewrite <- (app_nil_r rules) at 1.
    rewrite _get_symbol_for_abstain; [reflexivity|].
    intros r Hr. rewrite <- (Hall r Hr), fst_get_symbol. reflexivity.
  - intros stats w Hname.
    eexists. split; [reflexivity|].
    rewrite !_get_symbol_strategy, !_get_symbol_for_cons.
    cbn [with_rules heap]. rewrite answer_regexp, Hname.
    split; reflexivity.
Qed.

Lemma first_match_wins_witness :
  fst (_get_symbol 0
         (snd (strategy ([UnambiguousUsageRule]
                           ++ HeuristicStrategyRule :: [AllBranchRule])
                 usage_world)))
  = Some (Tag (mkSymbol 1 "both")) /\
  fst (_get_symbol 3
         (snd (strategy [UnambiguousUsageRule; BranchIfCommitsRule]
                 usage_world)))
  = None /\
  exists force_tag : Rule,
    ForceTagRegexpStrategyRule.__init__ "rel-.*" = Instance force_tag /\
    fst (_get_symbol 2 (snd (strategy [force_tag; AllBranchRule] usage_world)))
    = Some (Tag (symbol (heap usage_world 2))) /\
    fst (_get_symbol 2 (snd (strategy [AllBranchRule; force_tag] usage_world)))
    = Some (Branch (symbol (heap usage_world 2))).
Proof.
  destruct first_match_wins as (first & none & example).
  split; [|split].
  - apply first.
    + intros r [<-|[]]. reflexivity.
    + reflexivity.
  - apply none. intros r [<-|[<-|[]]]; reflexivity.
  - apply example. reflexivity.
Defined.

(* ================================================================== *)
(** * [get_symbols]: all or nothing *)

Lemma filter_nil_iff {A} (f : A -> bool) (l : list A) :
  filter f l = [] <-> forall x, In x l -> f x = false.
Proof.
  induction l as [|a l IH]; cbn; [tauto|].
  destruct (f a) eqn:E; split.
  - discriminate.
  - intros H. specialize (H a (or_introl eq_refl)). congruence.
  - intros H x [<-|Hx]; [exact E|]. now apply IH.
  - intros H. apply IH. auto.
Qed.

Lemma uncovered_true (w : World) (stats : ref) :
  uncovered w stats = true <-> fst (_get_symbol stats w) = None.
Proof.
  unfold uncovered. destruct (fst (_get_symbol stats w)); split;
    congruence.
Qed.

Lemma uncovered_false (w : World) (stats : ref) :
  uncovered w stats = false <-> fst (_get_symbol stats w) <> None.
Proof.
  unfold uncovered. destruct (fst (_get_symbol stats w)); split;
    congruence.
Qed.

(** When every record is covered, the result list pairs up with the
    input, record by record. *)
Lemma collected_Forall2 (w : World) (symbol_stats : list ref) :
  (forall stats, In stats symbol_stats -> fst (_get_symbol stats w) <> None) ->
  Forall2 (fun stats t => fst (_get_symbol stats w) = Some t) symbol_stats
    (flat_map (fun stats => match fst (_get_symbol stats w) with
                            | Some t => [t]
                            | None => []
                            end) symbol_stats).
Proof.
  induction symbol_stats as [|stats rest IH]; intros H; cbn [flat_map].
  - constructor.
  - destruct (fst (_get_symbol stats w)) as [t|] eqn:E.
    + cbn [app]. constructor; [exact E|]. apply IH. intros; apply H; now right.
    + exfalso. now apply (H stats (or_introl eq_refl)).
Qed.

(** C2: if some record of the input is matched by no rule, [get_symbols]
    returns [None] and no classification, and the report on [sys.stderr]
    has a line for each mismatched record, in input order; if every
    record is matched, the classifications of all records are
    returned. *)
Theorem get_symbols_all_or_nothing (symbol_stats : list ref) (w : World) :
  ((exists stats, In stats symbol_stats /\ fst (_get_symbol stats w) = None) ->
   fst (get_symbols symbol_stats w) = None /\
   stderr (snd (get_symbols symbol_stats w)) =
   stderr w ++ NotClear ::
     map (fun stats => Line (heap w stats))
       (filter (uncovered w) symbol_stats) /\
   (forall stats, In stats symbol_stats ->
                  fst (_get_symbol stats w) = None ->
                  In (Line (heap w stats))
                    (stderr (snd (get_symbols symbol_stats w))))) /\
  ((forall stats, In stats symbol_stats ->
                  fst (_get_symbol stats w) <> None) ->
   exists symbols,
     get_symbols symbol_stats w = (Some symbols, w) /\
     Forall2 (fun stats t => fst (_get_symbol stats w) = Some t)
       symbol_stats symbols).
Proof.
  rewrite get_symbols_run. split.
  - intros (bad & Hin & Hbad).
    destruct (filter (uncovered w) symbol_stats) as [|m ms] eqn:E.
    + exfalso. rewrite filter_nil_iff in E.
      apply uncovered_true in Hbad. specialize (E bad Hin). congruence.
    + cbn [fst snd printed stderr]. split; [reflexivity|].
      split; [reflexivity|].
      intros stats Hstats Hnone. apply in_or_app. right. right.
      apply in_map with (f := fun stats => Line (heap w stats)).
      rewrite <- E. apply filter_In. split; [exact Hstats|].
      now apply uncovered_true.
  - intros Hall.
    assert (E : filter (uncovered w) symbol_stats = []).
    { apply filter_nil_iff. intros x Hx. apply uncovered_false. auto. }
    rewrite E. eexists. split; [reflexivity|].
    now apply collected_Forall2.
Qed.

Lemma get_symbols_all_or_nothing_witness :
  (fst (get_symbols [1; 0; 2] unambiguous_world) = None /\
   stderr (snd (get_symbols [1; 0; 2] unambiguous_world)) =
   stderr unambiguous_world ++ NotClear ::
     map (fun stats => Line (heap unambiguous_world stats))
       (filter (uncovered unambiguous_world) [1; 0; 2]) /\
   (forall stats, In stats [1; 0; 2] ->
                  fst (_get_symbol stats unambiguous_world) = None ->
                  In (Line (heap unambiguous_world stats))
                    (stderr (snd (get_symbols [1; 0; 2] unambiguous_world))))) /\
  (exists symbols,
      get_symbols [1; 2] unambiguous_world = (Some symbols, unambiguous_world) /\
      Forall2 (fun stats t => fst (_get_symbol stats unambiguous_world) = Some t)
        [1; 2] symbols).
Proof.
  split.
  - destruct (get_symbols_all_or_nothing [1; 0; 2] unambiguous_world)
      as [fails _].
    apply fails. exists 0. split; [cbn; auto | reflexivity].
  - destruct (get_symbols_all_or_nothing [1; 2] unambiguous_world)
      as [_ succeeds].
    apply succeeds. intros stats [<-|[<-|[]]]; discriminate.
Defined.

(** The report of the sample above names the one mismatched record and
    nothing else. *)
Example one_mismatch_of_three :
  get_symbols [1; 0; 2] unambiguous_world =
  (None,
   printed [NotClear; Line (mkStats (mkSymbol 1 "both") 1 1 0)]
     unambiguous_world).
Proof. reflexivity. Qed.

(* ================================================================== *)
(** * Catch-all rules *)

(** C7: a chain that contains [AllBranchRule] or [AllTagRule] never
    fails and writes nothing to [sys.stderr]; the chain made of
    [AllBranchRule] alone turns every record into a branch and returns as
    many classifications as there are records. *)
Theorem catch_all_never_fails (symbol_stats : list ref) (w : World) :
  (In AllBranchRule (_rules w) \/ In AllTagRule (_rules w) ->
   fst (get_symbols symbol_stats w) <> None /\
   snd (get_symbols symbol_stats w) = w) /\
  (_rules w = [AllBranchRule] ->
   fst (get_symbols symbol_stats w) =
   Some (map (fun stats => Branch (symbol (heap w stats))) symbol_stats) /\
   forall symbols,
     fst (get_symbols symbol_stats w) = Some symbols ->
     List.length symbols = List.length symbol_stats).
Proof.
  split.
  - intros Hall.
    assert (E : filter (uncovered w) symbol_stats = []).
    { apply filter_nil_iff. intros stats _. apply uncovered_false.
      unfold _get_symbol; run. now apply _get_symbol_for_catch_all. }
    rewrite get_symbols_run, E. split; [discriminate | reflexivity].
  - intros Hrules.
    assert (Hone : forall stats,
               fst (_get_symbol stats w) = Some (Branch (symbol (heap w stats)))).
    { intros stats. unfold _get_symbol; run. rewrite Hrules.
      rewrite _get_symbol_for_cons. reflexivity. }
    assert (E : filter (uncovered w) symbol_stats = []).
    { apply filter_nil_iff. intros stats _. apply uncovered_false.
      now rewrite Hone. }
    rewrite get_symbols_run, E. cbn [fst].
    assert (Hmap : flat_map (fun stats => match fst (_get_symbol stats w) with
                                          | Some t => [t]
                                          | None => []
                                          end) symbol_stats
                   = map (fun stats => Branch (symbol (heap w stats)))
                       symbol_stats).
    { clear E. induction symbol_stats as [|stats rest IH]; [reflexivity|].
      cbn [flat_map map]. now rewrite Hone, IH. }
    rewrite Hmap. split; [reflexivity|].
    intros symbols H; inversion H; subst. apply length_map.
Qed.

Lemma catch_all_never_fails_witness :
  (fst (get_symbols [0; 1; 2; 3] default_tag_world) <> None /\
   snd (get_symbols [0; 1; 2; 3] default_tag_world) = default_tag_world) /\
  (fst (get_symbols [0; 1; 2; 3] all_branch_world) =
   Some (map (fun stats => Branch (symbol (heap all_branch_world stats)))
           [0; 1; 2; 3]) /\
   forall symbols,
     fst (get_symbols [0; 1; 2; 3] all_branch_world) = Some symbols ->
     List.length symbols = List.length [0; 1; 2; 3]).
Proof.
  split.
  - destruct (catch_all_never_fails [0; 1; 2; 3] default_tag_world)
      as [covered _].
    apply covered. right. cbn. auto.
  - destruct (catch_all_never_fails [0; 1; 2; 3] all_branch_world)
      as [_ only_branches].
    apply only_branches. reflexivity.
Defined.

(* ================================================================== *)
(** * The classifications returned on success *)

(** On success the symbols wrapped by the result are the symbols of the
    input records, position by position. *)
Lemma get_symbols_wrapped (symbol_stats : list ref) (w : World)
  (symbols : list TypedSymbol) :
  fst (get_symbols symbol_stats w) = Some symbols ->
  map wrapped symbols = map (fun stats => symbol (heap w stats)) symbol_stats.
Proof.
  rewrite get_symbols_run.
  destruct (filter (uncovered w) symbol_stats) eqn:E; [|discriminate].
  cbn [fst]. intros H; inversion H; subst; clear H.
  rewrite filter_nil_iff in E.
  induction symbol_stats as [|stats rest IH]; [reflexivity|].
  cbn [flat_map map].
  destruct (fst (_get_symbol stats w)) as [t|] eqn:Et.
  - cbn [app map]. f_equal.
    + now apply _get_symbol_wraps.
    + apply IH. intros x Hx. apply E. now right.
  - exfalso. specialize (E stats (or_introl eq_refl)).
    apply uncovered_false in E. contradiction.
Qed.

Lemma NoDup_map_injective {A B} (f : A -> B) (l : list A) (a b : A) :
  NoDup (map f l) -> In a l -> In b l -> f a = f b -> a = b.
Proof.
  induction l as [|x l IH]; cbn; [tauto|].
  intros Hnd Ha Hb Hf. inversion Hnd as [|y m Hnotin Hnd']; subst.
  destruct Ha as [<-|Ha], Hb as [<-|Hb]; auto.
  - exfalso. apply Hnotin. rewrite Hf. now apply in_map.
  - exfalso. apply Hnotin. rewrite <- Hf. now apply in_map.
Qed.

(** C8: when the records of the input have pairwise distinct symbols and
    [get_symbols] succeeds, the result has as many classifications as the
    input has records, no symbol is classified twice, the classified
    symbols are exactly the input symbols, and each input record has
    exactly one classification. *)
Theorem get_symbols_one_to_one (symbol_stats : list ref) (w : World)
  (symbols : list TypedSymbol) :
  NoDup (map (fun stats => symbol (heap w stats)) symbol_stats) ->
  fst (get_symbols symbol_stats w) = Some symbols ->
  List.length symbols = List.length symbol_stats /\
  NoDup (map wrapped symbols) /\
  (forall s : Symbol,
      In s (map wrapped symbols) <->
      In s (map (fun stats => symbol (heap w stats)) symbol_stats)) /\
  (forall stats, In stats symbol_stats ->
     exists! t, In t symbols /\ wrapped t = symbol (heap w stats)).
Proof.
  intros Hdistinct Hsome.
  pose proof (get_symbols_wrapped _ _ _ Hsome) as Hmap.
  split; [|split; [|split]].
  - rewrite <- (length_map wrapped), Hmap. apply length_map.
  - now rewrite Hmap.
  - intros s. now rewrite Hmap.
  - intros stats Hin.
    assert (Hs : In (symbol (heap w stats)) (map wrapped symbols)).
    { rewrite Hmap.
      now apply in_map with (f := fun stats => symbol (heap w stats)). }
    apply in_map_iff in Hs. destruct Hs as (t & Ht & Hint).
    exists t. split; [now split|].
    intros t' [Hint' Ht'].
    apply (NoDup_map_injective wrapped symbols); auto.
    + now rewrite Hmap.
    + congruence.
Qed.

Lemma get_symbols_one_to_one_witness :
  List.length [Branch (mkSymbol 2 "work"); Tag (mkSymbol 3 "rel-1")]
  = List.length [1; 2] /\
  NoDup (map wrapped [Branch (mkSymbol 2 "work"); Tag (mkSymbol 3 "rel-1")]) /\
  (forall s : Symbol,
      In s (map wrapped [Branch (mkSymbol 2 "work"); Tag (mkSymbol 3 "rel-1")])
      <->
      In s (map (fun stats => symbol (heap unambiguous_world stats)) [1; 2])) /\
  (forall stats, In stats [1; 2] ->
     exists! t,
       In t [Branch (mkSymbol 2 "work"); Tag (mkSymbol 3 "rel-1")] /\
       wrapped t = symbol (heap unambiguous_world stats)).
Proof.
  apply (get_symbols_one_to_one [1; 2] unambiguous_world).
  - cbn. repeat constructor; cbn; intuition discriminate.
  - reflexivity.
Defined.

(** C9: when [get_symbols] succeeds, the classification at each position
    of the result wraps the symbol of the record at the same position of
    the input. *)
Theorem get_symbols_keeps_order (symbol_stats : list ref) (w : World)
  (symbols : list TypedSymbol) :
  fst (get_symbols symbol_stats w) = Some symbols ->
  forall i : nat,
    option_map wrapped (nth_error symbols i) =
    option_map (fun stats => symbol (heap w stats)) (nth_error symbol_stats i).
Proof.
  intros Hsome i.
  rewrite <- !nth_error_map. f_equal. now apply get_symbols_wrapped.
Qed.

Lemma get_symbols_keeps_order_witness :
  option_map wrapped
    (nth_error [Tag (mkSymbol 3 "rel-1"); Tag (mkSymbol 1 "both");
                Branch (mkSymbol 2 "work")] 1) =
  option_map (fun stats => symbol (heap default_tag_world stats))
    (nth_error [2; 0; 1] 1).
Proof.
  apply (get_symbols_keeps_order [2; 0; 1] default_tag_world).
  reflexivity.
Defined.

(* ================================================================== *)
(** * Evaluation changes nothing but [sys.stderr] *)

(** C10: [get_symbol] of every rule class and [_get_symbol] leave the
    whole world as it was; [get_symbols] leaves the rule list of the
    strategy and every statistics object as they were, whether it returns
    classifications or [None]. *)
Theorem evaluation_modifies_nothing :
  (forall (rule : Rule) (stats : ref) (w : World),
      snd (get_symbol rule stats w) = w) /\
  (forall (stats : ref) (w : World), snd (_get_symbol stats w) = w) /\
  (forall (symbol_stats : list ref) (w : World),
      _rules (snd (get_symbols symbol_stats w)) = _rules w /\
      heap (snd (get_symbols symbol_stats w)) = heap w).
Proof.
  split; [|split].
  - intros rule stats w. now rewrite get_symbol_answer.
  - apply _get_symbol_frame.
  - intros symbol_stats w. rewrite get_symbols_run.
    destruct (filter (uncovered w) symbol_stats); split; reflexivity.
Qed.

(* ================================================================== *)
(** * Pattern rules *)

(** A compile error is what the constructor reports, and the only thing
    it reports. *)
Lemma _RegexpStrategyRule_init_FatalError (pattern : string)
  (action : TypedSymbolClass) (reported : string) :
  _RegexpStrategyRule.__init__ pattern action = FatalError reported <->
  re.compile ("^" ++ pattern ++ "$") = re.error /\ reported = pattern.
Proof.
  unfold _RegexpStrategyRule.__init__.
  destruct (re.compile ("^" ++ pattern ++ "$")); split;
    try discriminate; try (intros [? ?]; discriminate).
  - intros H; inversion H; auto.
  - intros [_ ->]; reflexivity.
Qed.

(** A rule that was built answers for every name: matching has no
    failure of its own, and the world is left as it was. *)
Lemma constructed_rule_always_answers (pattern : string)
  (action : TypedSymbolClass) (rule : Rule) (stats : ref) (w : World) :
  _RegexpStrategyRule.__init__ pattern action = Instance rule ->
  get_symbol rule stats w = (None, w) \/
  get_symbol rule stats w
  = (Some (instantiate action (symbol (heap w stats))), w).
Proof.
  unfold _RegexpStrategyRule.__init__.
  destruct (re.compile ("^" ++ pattern ++ "$")); try discriminate.
  intros H; inversion H; subst.
  rewrite get_symbol_answer, answer_regexp.
  destruct (re.match_ r (name (symbol (heap w stats)))); auto.
Qed.

(** An unbalanced group is refused when the rule is built. *)
Example unbalanced_group_is_fatal :
  ForceBranchRegexpStrategyRule.__init__ "(foo" = FatalError "(foo" /\
  ForceTagRegexpStrategyRule.__init__ "foo)" = FatalError "foo)" /\
  ExcludeRegexpStrategyRule.__init__ "*foo" = FatalError "*foo".
Proof. repeat split. Qed.

(** A pattern without alternation is anchored at both ends. *)
Example ForceBranch_foo_is_anchored :
  exists rule,
    ForceBranchRegexpStrategyRule.__init__ "foo" = Instance rule /\
    fst (get_symbol rule 0 name_world) = Some (Branch (mkSymbol 1 "foo")) /\
    fst (get_symbol rule 1 name_world) = None /\
    fst (get_symbol rule 2 name_world) = None.
Proof. eexists. repeat split. Qed.

(** C3: a pattern rule is meant to answer exactly when its pattern
    matches the entire name.  The rule built from "foo|bar" answers for
    the name "foobar", which the pattern "foo|bar" does not match
    entirely: the anchors that [__init__] puts around the pattern bind to
    the first and to the last alternative only. *)
Theorem alternation_is_not_anchored :
  exists (rule : Rule) (whole : re.regexp),
    ForceBranchRegexpStrategyRule.__init__ "foo|bar" = Instance rule /\
    re.compile "foo|bar" = re.Compiled whole /\
    re.fullmatch whole "foobar" = false /\
    fst (get_symbol rule 1 name_world) = Some (Branch (mkSymbol 2 "foobar")).
Proof. do 2 eexists. repeat split. Qed.

(** C6: a pattern that is not a valid regular expression is meant to be
    refused when the rule is built.  The pattern that ends with a lone
    backslash is not one ([re.compile] raises on it), yet the
    constructor returns a rule: the backslash escapes the [$] that
    [__init__] appends, and the rule waits for a name that ends with
    that character. *)
Theorem trailing_backslash_is_accepted :
  re.compile foo_backslash = re.error /\
  exists regexp : re.regexp,
    ForceBranchRegexpStrategyRule.__init__ foo_backslash
    = Instance (RegexpStrategyRule regexp BranchClass) /\
    re.match_ regexp "foo$" = true /\
    re.match_ regexp "foo" = false.
Proof. split; [reflexivity|]. eexists. repeat split. Qed.

(** ** Patterns made of ordinary characters *)

Lemma parse_ordinary (c : ascii) (rest : list ascii) (stack : list re.frame)
  (top : re.frame) :
  re.is_special c = false ->
  re.parse (c :: rest) stack top = re.parse rest stack (re.push (re.Lit c) top).
Proof.
  unfold re.is_special. cbn [existsb]. intros H.
  repeat (apply orb_false_elim in H; destruct H as [?E H]).
  cbn [re.parse]. unfold re.repeat_kind_of.
  now rewrite E, E0, E1, E2, E3, E4, E5, E6, E7, E8, E9, E10.
Qed.

Lemma parse_ordinaries (cs : list ascii) :
  forall (rest : list ascii) (stack : list re.frame) (top : re.frame),
    forallb (fun c => negb (re.is_special c)) cs = true ->
    re.parse (cs ++ rest) stack top =
    re.parse rest stack
      (re.mkFrame (re.alts top) (rev (map re.Lit cs) ++ re.items top)).
Proof.
  induction cs as [|c cs IH]; intros rest stack top H.
  - now destruct top.
  - cbn [forallb] in H. apply andb_true_iff in H. destruct H as [Hc Hcs].
    apply negb_true_iff in Hc.
    cbn [app]. rewrite (parse_ordinary _ _ _ _ Hc), (IH _ _ _ Hcs).
    unfold re.push. cbn [re.alts re.items map rev].
    now rewrite <- app_assoc.
Qed.

Lemma list_ascii_of_string_app (a b : string) :
  list_ascii_of_string (a ++ b) = list_ascii_of_string a ++ list_ascii_of_string b.
Proof. induction a as [|c a IH]; cbn; [reflexivity | now rewrite IH]. Qed.

Lemma list_ascii_of_string_inj (a b : string) :
  list_ascii_of_string a = list_ascii_of_string b -> a = b.
Proof.
  intros H. rewrite <- (string_of_list_ascii_of_string a),
    <- (string_of_list_ascii_of_string b). now rewrite H.
Qed.

(** The expression compiled for a pattern of ordinary characters: the
    start anchor, the characters, the end anchor. *)
Lemma compile_anchored_literal (pattern : string) :
  re.is_literal pattern = true ->
  re.compile ("^" ++ pattern ++ "$") =
  re.Compiled
    (re.Cat re.Bol
       (fold_right re.Cat (re.Cat re.Eol re.Eps)
          (map re.Lit (list_ascii_of_string pattern)))).
Proof.
  intros H. unfold re.compile.
  cbn [append list_ascii_of_string]. rewrite list_ascii_of_string_app.
  cbn [re.parse Ascii.eqb Chars.backslash]. cbn.
  rewrite (parse_ordinaries _ _ _ _ H). cbn.
  unfold re.close, re.sequence. cbn [re.alts re.items fold_left].
  rewrite fold_left_app. cbn [fold_left]. f_equal. f_equal.
  rewrite <- fold_left_rev_right, rev_involutive. reflexivity.
Qed.

Lemma ends_literals (cs : list ascii) (k : re.regexp) :
  forall (n : nat) (subject : list ascii),
    re.ends (fold_right re.Cat k (map re.Lit cs)) (n, subject) =
    match re.strip_prefix cs subject with
    | Some rest => re.ends k (n + List.length cs, rest)
    | None => []
    end.
Proof.
  induction cs as [|c cs IH]; intros n subject.
  - cbn. now rewrite Nat.add_0_r.
  - cbn [map fold_right re.ends re.strip_prefix fst snd].
    destruct subject as [|x subject]; [reflexivity|].
    destruct (Ascii.eqb x c); [|reflexivity].
    cbn [flat_map]. rewrite app_nil_r, IH. cbn [List.length].
    now rewrite Nat.add_succ_r.
Qed.

Lemma strip_prefix_Some (cs subject rest : list ascii) :
  re.strip_prefix cs subject = Some rest <-> subject = cs ++ rest.
Proof.
  revert subject. induction cs as [|c cs IH]; intros subject; cbn.
  - split; congruence.
  - destruct subject as [|x subject]; [split; discriminate|].
    destruct (Ascii.eqb_spec x c) as [->|Hne].
    + rewrite IH. split; congruence.
    + split; [discriminate | congruence].
Qed.

Lemma at_end_iff (rest : list ascii) :
  re.at_end rest = true <-> rest = [] \/ rest = [Chars.newline].
Proof.
  destruct rest as [|c [|d rest]]; cbn.
  - tauto.
  - rewrite Ascii.eqb_eq. split; [intros ->; now right|].
    intros [H|H]; congruence.
  - split; [discriminate | intros [H|H]; discriminate].
Qed.

(** X13: a pattern rule built from ordinary characters answers for the
    name equal to the pattern and, [$] being what it is, for that name
    followed by a newline; for no other name. *)
Theorem literal_pattern_is_anchored (pattern : string)
  (action : TypedSymbolClass) :
  re.is_literal pattern = true ->
  exists regexp : re.regexp,
    _RegexpStrategyRule.__init__ pattern action
    = Instance (RegexpStrategyRule regexp action) /\
    forall (stats : ref) (w : World),
      (name (symbol (heap w stats)) = pattern \/
       name (symbol (heap w stats)) = (pattern ++ String Chars.newline "")%string ->
       fst (get_symbol (RegexpStrategyRule regexp action) stats w)
       = Some (instantiate action (symbol (heap w stats)))) /\
      (name (symbol (heap w stats)) <> pattern ->
       name (symbol (heap w stats)) <> (pattern ++ String Chars.newline "")%string ->
       fst (get_symbol (RegexpStrategyRule regexp action) stats w) = None).
Proof.
  intros Hlit. eexists. split.
  - unfold _RegexpStrategyRule.__init__.
    now rewrite (compile_anchored_literal _ Hlit).
  - intros stats w. rewrite fst_get_symbol, answer_regexp.
    set (subject := name (symbol (heap w stats))).
    assert (H : re.match_
                  (re.Cat re.Bol
                     (fold_right re.Cat (re.Cat re.Eol re.Eps)
                        (map re.Lit (list_ascii_of_string pattern)))) subject
                = true <->
                subject = pattern \/
                subject = (pattern ++ String Chars.newline "")%string).
    { unfold re.match_, re.start. cbn [re.ends fst snd Nat.eqb flat_map].
      rewrite app_nil_r, ends_literals.
      destruct (re.strip_prefix (list_ascii_of_string pattern)
                  (list_ascii_of_string subject)) as [rest|] eqn:E.
      - apply strip_prefix_Some in E. cbn [re.ends flat_map snd].
        destruct (re.at_end rest) eqn:Eend.
        + split; [intros _|reflexivity].
          apply at_end_iff in Eend. destruct Eend as [-> | ->].
          * left. apply list_ascii_of_string_inj.
            now rewrite E, app_nil_r.
          * right. apply list_ascii_of_string_inj.
            now rewrite E, list_ascii_of_string_app.
        + split; [discriminate|]. intros Hs. exfalso.
          assert (Hrest : rest = [] \/ rest = [Chars.newline]).
          { destruct Hs as [Hs|Hs]; rewrite Hs in E.
            - left. rewrite <- (app_nil_r (list_ascii_of_string pattern)) in E
                at 1.
              now apply app_inv_head in E.
            - right. rewrite list_ascii_of_string_app in E.
              now apply app_inv_head in E. }
          apply at_end_iff in Hrest. congruence.
      - split; [discriminate|]. intros Hs. exfalso.
        assert (Hex : exists rest,
                   list_ascii_of_string subject
                   = list_ascii_of_string pattern ++ rest).
        { destruct Hs as [-> | ->].
          - exists []. now rewrite app_nil_r.
          - eexists. apply list_ascii_of_string_app. }
        destruct Hex as [rest Hrest].
        apply strip_prefix_Some in Hrest. congruence. }
    split.
    + intros Hs. apply H in Hs. now rewrite Hs.
    + intros H1 H2.
      destruct (re.match_ _ subject) eqn:Em; [|reflexivity].
      exfalso. destruct (proj1 H eq_refl); contradiction.
Qed.

(* ================================================================== *)
(** * More about chains *)

(** ** The chain as a function of the record *)

Lemma _get_symbol_for_ext (rules : list Rule) (stats stats' : ref)
  (w w' : World) :
  heap w stats = heap w' stats' ->
  fst (_get_symbol_for rules stats w) = fst (_get_symbol_for rules stats' w').
Proof.
  intros H. induction rules as [|rule rules IH]; [reflexivity|].
  rewrite !_get_symbol_for_cons, <- H.
  destruct (answer rule (heap w stats)); [reflexivity | exact IH].
Qed.

Lemma _get_symbol_chain_answer (stats : ref) (w : World) :
  _get_symbol stats w = (chain_answer (_rules w) (heap w stats), w).
Proof.
  rewrite _get_symbol_eta. f_equal.
  unfold chain_answer, _get_symbol; run. cbn [_rules].
  now apply _get_symbol_for_ext.
Qed.

Lemma chain_answer_nil (s : SymbolStatistics) : chain_answer [] s = None.
Proof. reflexivity. Qed.

Lemma chain_answer_cons (rule : Rule) (rules : list Rule)
  (s : SymbolStatistics) :
  chain_answer (rule :: rules) s =
  match answer rule s with
  | Some t => Some t
  | None => chain_answer rules s
  end.
Proof.
  unfold chain_answer, _get_symbol; run. cbn [_rules].
  rewrite _get_symbol_for_cons. cbn [heap].
  destruct (answer rule s); [reflexivity|].
  now apply _get_symbol_for_ext.
Qed.

Lemma chain_answer_app (rules more : list Rule) (s : SymbolStatistics) :
  chain_answer (rules ++ more) s =
  match chain_answer rules s with
  | Some t => Some t
  | None => chain_answer more s
  end.
Proof.
  induction rules as [|rule rules IH]; [reflexivity|].
  cbn [app]. rewrite !chain_answer_cons.
  destruct (answer rule s); [reflexivity | exact IH].
Qed.

Lemma chain_answer_In (rules : list Rule) (s : SymbolStatistics)
  (t : TypedSymbol) :
  chain_answer rules s = Some t ->
  exists rule, In rule rules /\ answer rule s = Some t.
Proof.
  induction rules as [|rule rules IH]; [discriminate|].
  rewrite chain_answer_cons.
  destruct (answer rule s) eqn:E.
  - intros H; inversion H; subst. exists rule. split; [now left | exact E].
  - intros H. destruct (IH H) as (r & Hr & Ha). exists r. split; auto.
    now right.
Qed.

Lemma chain_answer_None (rules : list Rule) (s : SymbolStatistics) :
  chain_answer rules s = None <->
  forall rule, In rule rules -> answer rule s = None.
Proof.
  induction rules as [|rule rules IH].
  - split; [intros _ r [] | reflexivity].
  - rewrite chain_answer_cons. destruct (answer rule s) eqn:E.
    + split; [discriminate|]. intros H.
      specialize (H rule (or_introl eq_refl)). congruence.
    + rewrite IH. split.
      * intros H r [<-|Hr]; auto.
      * intros H r Hr. apply H. now right.
Qed.

Lemma uncovered_chain_answer (w : World) (stats : ref) :
  uncovered w stats =
  match chain_answer (_rules w) (heap w stats) with
  | Some _ => false
  | None => true
  end.
Proof. unfold uncovered. now rewrite _get_symbol_chain_answer. Qed.

(** Two worlds whose chains answer alike for the records of the input
    make [get_symbols] return the same and write the same. *)
Lemma get_symbols_congruence (symbol_stats : list ref) (w1 w2 : World) :
  (forall stats, In stats symbol_stats ->
     fst (_get_symbol stats w1) = fst (_get_symbol stats w2) /\
     heap w1 stats = heap w2 stats) ->
  fst (get_symbols symbol_stats w1) = fst (get_symbols symbol_stats w2) /\
  exists out : list written,
    snd (get_symbols symbol_stats w1) = printed out w1 /\
    snd (get_symbols symbol_stats w2) = printed out w2.
Proof.
  intros H. rewrite !get_symbols_run.
  assert (Hf : filter (uncovered w1) symbol_stats
               = filter (uncovered w2) symbol_stats).
  { apply filter_ext_in. intros stats Hin. unfold uncovered.
    now rewrite (proj1 (H stats Hin)). }
  assert (Hm : flat_map (fun stats => match fst (_get_symbol stats w1) with
                                      | Some t => [t]
                                      | None => []
                                      end) symbol_stats
               = flat_map (fun stats => match fst (_get_symbol stats w2) with
                                        | Some t => [t]
                                        | None => []
                                        end) symbol_stats).
  { clear Hf. induction symbol_stats as [|stats rest IH]; [reflexivity|].
    cbn [flat_map]. rewrite (proj1 (H stats (or_introl eq_refl))).
    f_equal. apply IH. intros x Hx. apply H. now right. }
  rewrite <- Hf, <- Hm.
  destruct (filter (uncovered w1) symbol_stats) as [|m ms] eqn:E.
  - split; [reflexivity|]. exists []. now rewrite !printed_nil.
  - split; [reflexivity|]. cbn [snd].
    exists (NotClear :: map (fun stats => Line (heap w1 stats)) (m :: ms)).
    split; [reflexivity|]. f_equal. f_equal.
    apply map_ext_in. intros stats Hin. f_equal. symmetry. apply H.
    rewrite <- E in Hin. now apply filter_In in Hin.
Qed.

Lemma add_rule_run (rule : Rule) (w : World) :
  add_rule rule w = (tt, with_rules (_rules w ++ [rule]) w).
Proof. reflexivity. Qed.

(** ** What the statistical rules answer *)

Lemma answer_UnambiguousUsageRule (s : SymbolStatistics) :
  answer UnambiguousUsageRule s =
  let is_tag := (tag_create_count s >? 0)%Z in
  let is_branch :=
    ((branch_create_count s >? 0) || (branch_commit_count s >? 0))%Z in
  if is_tag && is_branch then None
  else if is_branch then Some (Branch (symbol s))
  else if is_tag then Some (Tag (symbol s))
  else None.
Proof.
  unfold answer; cbn [get_symbol]; run; cbv beta iota zeta delta [heap].
  destruct (tag_create_count s >? 0)%Z, (branch_create_count s >? 0)%Z,
    (branch_commit_count s >? 0)%Z; reflexivity.
Qed.

Lemma answer_BranchIfCommitsRule (s : SymbolStatistics) :
  answer BranchIfCommitsRule s =
  if (branch_commit_count s >? 0)%Z then Some (Branch (symbol s)) else None.
Proof.
  unfold answer; cbn [get_symbol]; run; cbv beta iota zeta delta [heap].
  destruct (branch_commit_count s >? 0)%Z; reflexivity.
Qed.

Lemma answer_HeuristicStrategyRule (s : SymbolStatistics) :
  answer HeuristicStrategyRule s =
  if (tag_create_count s >=? branch_create_count s)%Z
  then Some (Tag (symbol s)) else Some (Branch (symbol s)).
Proof.
  unfold answer; cbn [get_symbol]; run; cbv beta iota zeta delta [heap].
  destruct (tag_create_count s >=? branch_create_count s)%Z; reflexivity.
Qed.

(** ** Empty input, empty chain *)

(** X1: on the empty input [get_symbols] returns the empty list and
    writes nothing, whatever the rules; a strategy without rules fails on
    every other input and its report has a line for each record, in
    input order. *)
Theorem get_symbols_edge_cases :
  (forall w : World, get_symbols [] w = (Some [], w)) /\
  (forall (symbol_stats : list ref) (w : World),
      _rules w = [] ->
      symbol_stats <> [] ->
      get_symbols symbol_stats w =
      (None,
       printed (NotClear ::
                  map (fun stats => Line (heap w stats)) symbol_stats) w)).
Proof.
  split.
  - intros w. now rewrite get_symbols_run.
  - intros symbol_stats w Hrules Hne. rewrite get_symbols_run.
    assert (E : filter (uncovered w) symbol_stats = symbol_stats).
    { clear Hne. induction symbol_stats as [|stats rest IH]; [reflexivity|].
      cbn [filter]. rewrite uncovered_chain_answer, Hrules, chain_answer_nil.
      now rewrite IH. }
    rewrite E. destruct symbol_stats; [contradiction | reflexivity].
Qed.

Lemma get_symbols_edge_cases_witness :
  get_symbols [] unambiguous_world = (Some [], unambiguous_world) /\
  get_symbols [2; 0] no_rule_world =
  (None,
   printed (NotClear ::
              map (fun stats => Line (heap no_rule_world stats)) [2; 0])
     no_rule_world).
Proof.
  destruct get_symbols_edge_cases as [empty_input no_rules].
  split.
  - apply empty_input.
  - apply no_rules; [reflexivity | discriminate].
Defined.

(** ** Rules that always answer *)

(** X2: a chain that contains [HeuristicStrategyRule] never fails and
    writes nothing, like a chain with one of the two catch-all rules. *)
Theorem heuristic_chain_never_fails (symbol_stats : list ref) (w : World) :
  In HeuristicStrategyRule (_rules w) ->
  fst (get_symbols symbol_stats w) <> None /\
  snd (get_symbols symbol_stats w) = w.
Proof.
  intros Hin.
  assert (E : filter (uncovered w) symbol_stats = []).
  { apply filter_nil_iff. intros stats _.
    rewrite uncovered_chain_answer.
    destruct (chain_answer (_rules w) (heap w stats)) eqn:Ec; [reflexivity|].
    rewrite chain_answer_None in Ec. specialize (Ec _ Hin).
    rewrite answer_HeuristicStrategyRule in Ec.
    destruct (tag_create_count (heap w stats)
              >=? branch_create_count (heap w stats))%Z; discriminate. }
  rewrite get_symbols_run, E. split; [discriminate | reflexivity].
Qed.

Lemma heuristic_chain_never_fails_witness :
  fst (get_symbols [0; 1; 2; 3]
         (with_rules [UnambiguousUsageRule; HeuristicStrategyRule]
            usage_world)) <> None /\
  snd (get_symbols [0; 1; 2; 3]
         (with_rules [UnambiguousUsageRule; HeuristicStrategyRule]
            usage_world))
  = with_rules [UnambiguousUsageRule; HeuristicStrategyRule] usage_world.
Proof.
  apply (heuristic_chain_never_fails [0; 1; 2; 3]
           (with_rules [UnambiguousUsageRule; HeuristicStrategyRule]
              usage_world)).
  cbn. auto.
Defined.

(** X3: once a rule of the chain answers for every record of the input,
    the rules behind it play no part: [get_symbols] succeeds and returns
    what it returns for the chain that stops at that rule. *)
Theorem rules_behind_a_total_rule_are_dead (before after : list Rule)
  (total : Rule) (symbol_stats : list ref) (w : World) :
  (forall stats, In stats symbol_stats ->
                 fst (get_symbol total stats w) <> None) ->
  fst (get_symbols symbol_stats (with_rules (before ++ total :: after) w))
  <> None /\
  fst (get_symbols symbol_stats (with_rules (before ++ total :: after) w))
  = fst (get_symbols symbol_stats (with_rules (before ++ [total]) w)).
Proof.
  intros Htotal.
  assert (Hsame : forall stats, In stats symbol_stats ->
            chain_answer (before ++ total :: after) (heap w stats)
            = chain_answer (before ++ [total]) (heap w stats) /\
            chain_answer (before ++ [total]) (heap w stats) <> None).
  { intros stats Hin. specialize (Htotal stats Hin).
    rewrite fst_get_symbol in Htotal.
    rewrite !chain_answer_app, !chain_answer_cons.
    destruct (chain_answer before (heap w stats)); [split; congruence|].
    destruct (answer total (heap w stats)); [split; congruence|].
    contradiction. }
  split.
  - rewrite get_symbols_run.
    assert (E : filter (uncovered (with_rules (before ++ total :: after) w))
                  symbol_stats = []).
    { apply filter_nil_iff. intros stats Hin.
      rewrite uncovered_chain_answer. cbn [with_rules _rules heap].
      destruct (Hsame stats Hin) as [-> Hne].
      now destruct (chain_answer (before ++ [total]) (heap w stats)). }
    rewrite E. discriminate.
  - apply get_symbols_congruence. intros stats Hin.
    rewrite !_get_symbol_chain_answer. cbn [fst with_rules _rules heap].
    split; [apply (Hsame stats Hin) | reflexivity].
Qed.

Lemma rules_behind_a_total_rule_are_dead_witness :
  fst (get_symbols [0; 3]
         (with_rules ([UnambiguousUsageRule]
                        ++ HeuristicStrategyRule :: [AllBranchRule])
            usage_world)) <> None /\
  fst (get_symbols [0; 3]
         (with_rules ([UnambiguousUsageRule]
                        ++ HeuristicStrategyRule :: [AllBranchRule])
            usage_world))
  = fst (get_symbols [0; 3]
           (with_rules ([UnambiguousUsageRule] ++ [HeuristicStrategyRule])
              usage_world)).
Proof.
  apply (rules_behind_a_total_rule_are_dead [UnambiguousUsageRule]
           [AllBranchRule] HeuristicStrategyRule [0; 3] usage_world).
  intros stats [<-|[<-|[]]]; discriminate.
Defined.

(** ** [add_rule] on a strategy that is in use *)

(** X4: appending a rule never takes a classification away: a record
    that the chain covers keeps its classification, and an input on
    which [get_symbols] succeeds gives the same list afterwards. *)
Theorem add_rule_only_helps (rule : Rule) (symbol_stats : list ref)
  (w : World) :
  (forall (stats : ref) (t : TypedSymbol),
      fst (_get_symbol stats w) = Some t ->
      fst (_get_symbol stats (snd (add_rule rule w))) = Some t) /\
  (forall symbols : list TypedSymbol,
      fst (get_symbols symbol_stats w) = Some symbols ->
      fst (get_symbols symbol_stats (snd (add_rule rule w))) = Some symbols).
Proof.
  assert (Hone : forall (stats : ref) (t : TypedSymbol),
             fst (_get_symbol stats w) = Some t ->
             fst (_get_symbol stats (snd (add_rule rule w))) = Some t).
  { intros stats t. rewrite add_rule_run, !_get_symbol_chain_answer.
    cbn [fst snd with_rules _rules heap]. rewrite chain_answer_app.
    now intros ->. }
  split; [exact Hone|].
  intros symbols Hsome. rewrite <- Hsome.
  apply get_symbols_congruence. intros stats Hin.
  split; [|reflexivity].
  rewrite get_symbols_run in Hsome.
  destruct (filter (uncovered w) symbol_stats) eqn:E; [|discriminate].
  rewrite filter_nil_iff in E. specialize (E stats Hin).
  apply uncovered_false in E.
  destruct (fst (_get_symbol stats w)) as [t|] eqn:Et; [|contradiction].
  now apply Hone.
Qed.

Lemma add_rule_only_helps_witness :
  fst (_get_symbol 1 (snd (add_rule AllTagRule unambiguous_world)))
  = Some (Branch (mkSymbol 2 "work")) /\
  fst (get_symbols [1; 2] (snd (add_rule AllTagRule unambiguous_world)))
  = Some [Branch (mkSymbol 2 "work"); Tag (mkSymbol 3 "rel-1")].
Proof.
  destruct (add_rule_only_helps AllTagRule [1; 2] unambiguous_world)
    as [one all].
  split.
  - apply one. reflexivity.
  - apply all. reflexivity.
Defined.



(** ** How the statistical rules combine *)

(** X6: [UnambiguousUsageRule] and [BranchIfCommitsRule] never answer
    differently for one record, so a chain may hold them next to each
    other in either order: [get_symbols] returns and writes the same. *)
Theorem unambiguous_and_commits_commute (before after : list Rule)
  (symbol_stats : list ref) (w : World) :
  fst (get_symbols symbol_stats
         (with_rules
            (before ++ UnambiguousUsageRule :: BranchIfCommitsRule :: after)
            w))
  = fst (get_symbols symbol_stats
           (with_rules
              (before ++ BranchIfCommitsRule :: UnambiguousUsageRule :: after)
              w)) /\
  stderr (snd (get_symbols symbol_stats
                 (with_rules
                    (before ++
                       UnambiguousUsageRule :: BranchIfCommitsRule :: after)
                    w)))
  = stderr (snd (get_symbols symbol_stats
                   (with_rules
                      (before ++
                         BranchIfCommitsRule :: UnambiguousUsageRule :: after)
                      w))).
Proof.
  destruct (get_symbols_congruence symbol_stats
              (with_rules
                 (before ++ UnambiguousUsageRule :: BranchIfCommitsRule :: after)
                 w)
              (with_rules
                 (before ++ BranchIfCommitsRule :: UnambiguousUsageRule :: after)
                 w))
    as (Hres & out & H1 & H2).
  - intros stats _. split; [|reflexivity].
    rewrite !_get_symbol_chain_answer. cbn [fst with_rules _rules heap].
    rewrite !chain_answer_app, !chain_answer_cons.
    destruct (chain_answer before (heap w stats)); [reflexivity|].
    rewrite answer_UnambiguousUsageRule, answer_BranchIfCommitsRule.
    cbv zeta.
    destruct (tag_create_count (heap w stats) >? 0)%Z,
      (branch_create_count (heap w stats) >? 0)%Z,
      (branch_commit_count (heap w stats) >? 0)%Z; reflexivity.
  - split; [exact Hres|]. now rewrite H1, H2.
Qed.

(** X7: [HeuristicStrategyRule] does not look at commits.  In front of
    it, [UnambiguousUsageRule] changes the classification of a record
    only when the record has commits but was created neither as a tag
    nor more often as a branch than as a tag: the chain
    [UnambiguousUsageRule, HeuristicStrategyRule] then answers [Branch]
    where [HeuristicStrategyRule] alone answers [Tag]. *)
Theorem unambiguous_before_heuristic (stats : ref) (w : World) :
  let s := heap w stats in
  let commits_only :=
    (tag_create_count s <= 0 /\
     branch_create_count s <= tag_create_count s /\
     branch_commit_count s > 0)%Z in
  let both :=
    fst (_get_symbol stats
           (with_rules [UnambiguousUsageRule; HeuristicStrategyRule] w)) in
  let alone := fst (_get_symbol stats (with_rules [HeuristicStrategyRule] w)) in
  (commits_only ->
   both = Some (Branch (symbol s)) /\ alone = Some (Tag (symbol s))) /\
  (~ commits_only -> both = alone).
Proof.
  cbv zeta. rewrite !_get_symbol_chain_answer.
  cbn [fst with_rules _rules heap].
  rewrite !chain_answer_cons, chain_answer_nil,
    answer_UnambiguousUsageRule, answer_HeuristicStrategyRule.
  cbv zeta.
  destruct (Z.gtb_spec (tag_create_count (heap w stats)) 0),
    (Z.gtb_spec (branch_create_count (heap w stats)) 0),
    (Z.gtb_spec (branch_commit_count (heap w stats)) 0),
    (Z.geb_spec (tag_create_count (heap w stats))
       (branch_create_count (heap w stats)));
    cbn [andb orb]; split;
    try (intros (? & ? & ?); exfalso; lia);
    try (intros _; split; reflexivity);
    try (intros _; reflexivity);
    intros Hn; exfalso; apply Hn; lia.
Qed.

Lemma unambiguous_before_heuristic_witness :
  (fst (_get_symbol 0
          (with_rules [UnambiguousUsageRule; HeuristicStrategyRule]
             commits_only_world))
   = Some (Branch (symbol (heap commits_only_world 0))) /\
   fst (_get_symbol 0 (with_rules [HeuristicStrategyRule] commits_only_world))
   = Some (Tag (symbol (heap commits_only_world 0)))) /\
  fst (_get_symbol 0
         (with_rules [UnambiguousUsageRule; HeuristicStrategyRule] usage_world))
  = fst (_get_symbol 0 (with_rules [HeuristicStrategyRule] usage_world)).
Proof.
  split.
  - destruct (unambiguous_before_heuristic 0 commits_only_world)
      as [differ _].
    apply differ. cbn. lia.
  - destruct (unambiguous_before_heuristic 0 usage_world) as [_ agree].
    apply agree. cbn. lia.
Defined.

(** ** What a chain cannot do *)

Lemma answer_ExcludedSymbol (rule : Rule) (s : SymbolStatistics)
  (x : Symbol) :
  answer rule s = Some (ExcludedSymbol x) ->
  exists regexp, rule = RegexpStrategyRule regexp ExcludedSymbolClass.
Proof.
  destruct rule as [regexp action| | | | |].
  - rewrite answer_regexp.
    destruct (re.match_ regexp (name (symbol s))); [|discriminate].
    destruct action; try discriminate. intros _. now exists regexp.
  - rewrite answer_UnambiguousUsageRule. cbv zeta.
    repeat match goal with
      | |- context [if ?b then _ else _] => destruct b
      end; discriminate.
  - rewrite answer_BranchIfCommitsRule.
    destruct (branch_commit_count s >? 0)%Z; discriminate.
  - rewrite answer_HeuristicStrategyRule.
    destruct (tag_create_count s >=? branch_create_count s)%Z; discriminate.
  - discriminate.
  - discriminate.
Qed.

Lemma get_symbols_In (symbol_stats : list ref) (w : World)
  (symbols : list TypedSymbol) (t : TypedSymbol) :
  fst (get_symbols symbol_stats w) = Some symbols ->
  In t symbols ->
  exists stats, In stats symbol_stats /\ fst (_get_symbol stats w) = Some t.
Proof.
  rewrite get_symbols_run.
  destruct (filter (uncovered w) symbol_stats); [|discriminate].
  cbn [fst]. intros H; inversion H; subst; clear H.
  rewrite in_flat_map. intros (stats & Hin & Ht).
  exists stats. split; [exact Hin|].
  destruct (fst (_get_symbol stats w)); [|contradiction].
  destruct Ht as [->|[]]. reflexivity.
Qed.

(** X8: no symbol is excluded unless the chain holds an exclude rule:
    when no rule of the chain is a pattern rule with the action
    [ExcludedSymbol], no classification that [get_symbols] returns is an
    [ExcludedSymbol]. *)
Theorem no_exclusion_without_exclude_rule (symbol_stats : list ref)
  (w : World) (symbols : list TypedSymbol) :
  (forall regexp,
      ~ In (RegexpStrategyRule regexp ExcludedSymbolClass) (_rules w)) ->
  fst (get_symbols symbol_stats w) = Some symbols ->
  forall s : Symbol, ~ In (ExcludedSymbol s) symbols.
Proof.
  intros Hno Hsome s Hin.
  destruct (get_symbols_In _ _ _ _ Hsome Hin) as (stats & _ & Ht).
  rewrite _get_symbol_chain_answer in Ht. cbn [fst] in Ht.
  apply chain_answer_In in Ht. destruct Ht as (rule & Hrule & Ha).
  apply answer_ExcludedSymbol in Ha. destruct Ha as (regexp & ->).
  exact (Hno regexp Hrule).
Qed.

Lemma no_exclusion_without_exclude_rule_witness :
  ~ In (ExcludedSymbol (mkSymbol 4 "unused"))
      [Tag (mkSymbol 1 "both"); Branch (mkSymbol 2 "work");
       Tag (mkSymbol 3 "rel-1"); Tag (mkSymbol 4 "unused")].
Proof.
  apply (no_exclusion_without_exclude_rule [0; 1; 2; 3] default_tag_world).
  - intros regexp [H|[H|[H|[]]]]; discriminate.
  - reflexivity.
Defined.

(** X9: a symbol that was never used (no tag, no branch, no commit) is
    left uncovered by the two rules that look at usage: a chain made of
    [UnambiguousUsageRule] and [BranchIfCommitsRule] only fails on every
    input that holds such a record, and reports it. *)
Theorem unused_symbol_needs_another_rule (symbol_stats : list ref)
  (w : World) (stats : ref) :
  (forall rule, In rule (_rules w) ->
                rule = UnambiguousUsageRule \/ rule = BranchIfCommitsRule) ->
  In stats symbol_stats ->
  (tag_create_count (heap w stats) <= 0)%Z ->
  (branch_create_count (heap w stats) <= 0)%Z ->
  (branch_commit_count (heap w stats) <= 0)%Z ->
  fst (get_symbols symbol_stats w) = None /\
  In (Line (heap w stats)) (stderr (snd (get_symbols symbol_stats w))).
Proof.
  intros Hrules Hin Ht Hb Hc.
  assert (Hun : uncovered w stats = true).
  { rewrite uncovered_chain_answer.
    destruct (chain_answer (_rules w) (heap w stats)) eqn:E; [|reflexivity].
    apply chain_answer_In in E. destruct E as (rule & Hrule & Ha).
    exfalso. destruct (Hrules rule Hrule) as [-> | ->].
    - rewrite answer_UnambiguousUsageRule in Ha. cbv zeta in Ha.
      destruct (Z.gtb_spec (tag_create_count (heap w stats)) 0); [lia|].
      destruct (Z.gtb_spec (branch_create_count (heap w stats)) 0); [lia|].
      destruct (Z.gtb_spec (branch_commit_count (heap w stats)) 0); [lia|].
      discriminate.
    - rewrite answer_BranchIfCommitsRule in Ha.
      destruct (Z.gtb_spec (branch_commit_count (heap w stats)) 0); [lia|].
      discriminate. }
  assert (Hf : In stats (filter (uncovered w) symbol_stats)).
  { apply filter_In. now split. }
  rewrite get_symbols_run.
  destruct (filter (uncovered w) symbol_stats) as [|m ms] eqn:E;
    [contradiction|].
  split; [reflexivity|]. cbn [snd printed stderr].
  apply in_or_app. right. right.
  now apply in_map with (f := fun stats => Line (heap w stats)).
Qed.

Lemma unused_symbol_needs_another_rule_witness :
  fst (get_symbols [1; 3; 2] careful_world) = None /\
  In (Line (heap careful_world 3))
    (stderr (snd (get_symbols [1; 3; 2] careful_world))).
Proof.
  apply (unused_symbol_needs_another_rule [1; 3; 2] careful_world 3).
  - intros rule [<-|[<-|[]]]; auto.
  - cbn. auto.
  - cbn. lia.
  - cbn. lia.
  - cbn. lia.
Defined.

(** ** The input as a collection *)

(** X10: the order of the input decides the order of the result and
    nothing else: on a rearranged input [get_symbols] fails if and only
    if it fails on the input, and what it returns is the rearranged
    result. *)
Theorem get_symbols_permutation (symbol_stats rearranged : list ref)
  (w : World) :
  Permutation symbol_stats rearranged ->
  (fst (get_symbols symbol_stats w) = None <->
   fst (get_symbols rearranged w) = None) /\
  (forall symbols symbols' : list TypedSymbol,
      fst (get_symbols symbol_stats w) = Some symbols ->
      fst (get_symbols rearranged w) = Some symbols' ->
      Permutation symbols symbols').
Proof.
  intros Hperm. rewrite !get_symbols_run.
  assert (Hnil : filter (uncovered w) symbol_stats = [] <->
                 filter (uncovered w) rearranged = []).
  { rewrite !filter_nil_iff. split; intros H x Hx; apply H.
    - now apply (Permutation_in _ (Permutation_sym Hperm)).
    - now apply (Permutation_in _ Hperm). }
  destruct (filter (uncovered w) symbol_stats) as [|m ms],
    (filter (uncovered w) rearranged) as [|m' ms']; cbn [fst].
  - split; [split; discriminate|].
    intros symbols symbols' H H'. inversion H; inversion H'; subst.
    now apply Permutation_flat_map.
  - exfalso. destruct Hnil as [Hnil _]. discriminate (Hnil eq_refl).
  - exfalso. destruct Hnil as [_ Hnil]. discriminate (Hnil eq_refl).
  - split; [tauto|]. discriminate.
Qed.

Lemma get_symbols_permutation_witness :
  (fst (get_symbols [1; 2; 3] default_tag_world) = None <->
   fst (get_symbols [3; 1; 2] default_tag_world) = None) /\
  (forall symbols symbols' : list TypedSymbol,
      fst (get_symbols [1; 2; 3] default_tag_world) = Some symbols ->
      fst (get_symbols [3; 1; 2] default_tag_world) = Some symbols' ->
      Permutation symbols symbols').
Proof.
  apply (get_symbols_permutation [1; 2; 3] [3; 1; 2] default_tag_world).
  apply Permutation_sym.
  apply (Permutation_cons_app [1; 2] [] 3). apply Permutation_refl.
Defined.

(** X11: [get_symbols] splits over an input made of two parts: it
    succeeds on the whole exactly when it succeeds on both parts, and
    then returns the two results one after the other. *)
Theorem get_symbols_app (first second : list ref) (w : World) :
  fst (get_symbols (first ++ second) w) =
  match fst (get_symbols first w), fst (get_symbols second w) with
  | Some symbols, Some symbols' => Some (symbols ++ symbols')
  | _, _ => None
  end.
Proof.
  rewrite !get_symbols_run, filter_app, flat_map_app.
  destruct (filter (uncovered w) first), (filter (uncovered w) second);
    reflexivity.
Qed.

(** X12: [get_symbols] looks at its rules and at the records it is
    given, at nothing else: in two worlds with the same rules and the
    same records behind the references of the input, whatever else the
    store holds and whatever was written before, it returns the same
    and writes the same. *)
Theorem get_symbols_is_local (symbol_stats : list ref) (w w' : World) :
  _rules w = _rules w' ->
  (forall stats, In stats symbol_stats -> heap w stats = heap w' stats) ->
  fst (get_symbols symbol_stats w) = fst (get_symbols symbol_stats w') /\
  exists out : list written,
    snd (get_symbols symbol_stats w) = printed out w /\
    snd (get_symbols symbol_stats w') = printed out w'.
Proof.
  intros Hrules Hheap. apply get_symbols_congruence.
  intros stats Hin. split; [|now apply Hheap].
  rewrite !_get_symbol_chain_answer. cbn [fst].
  now rewrite Hrules, (Hheap stats Hin).
Qed.

Lemma get_symbols_is_local_witness :
  fst (get_symbols [0; 1; 3] unambiguous_world)
  = fst (get_symbols [0; 1; 3] later_world) /\
  exists out : list written,
    snd (get_symbols [0; 1; 3] unambiguous_world)
    = printed out unambiguous_world /\
    snd (get_symbols [0; 1; 3] later_world) = printed out later_world.
Proof.
  apply (get_symbols_is_local [0; 1; 3] unambiguous_world later_world).
  - reflexivity.
  - intros stats [<-|[<-|[<-|[]]]]; reflexivity.
Defined.

(* ================================================================== *)
(** * More about pattern rules *)

Lemma literal_pattern_is_anchored_witness :
  exists regexp : re.regexp,
    _RegexpStrategyRule.__init__ "foo" BranchClass
    = Instance (RegexpStrategyRule regexp BranchClass) /\
    fst (get_symbol (RegexpStrategyRule regexp BranchClass) 0 name_world)
    = Some (Branch (mkSymbol 1 "foo")) /\
    fst (get_symbol (RegexpStrategyRule regexp BranchClass) 1 name_world)
    = None.
Proof.
  destruct (literal_pattern_is_anchored "foo" BranchClass eq_refl)
    as (regexp & built & answers).
  exists regexp. split; [exact built|]. split.
  - apply (answers 0 name_world). left. reflexivity.
  - apply (answers 1 name_world); discriminate.
Defined.

(** ** Patterns that are refused *)

Lemma list_ascii_anchored (pattern : string) :
  list_ascii_of_string ("^" ++ pattern ++ "$")
  = "^"%char :: list_ascii_of_string pattern ++ ["$"%char].
Proof.
  cbn [append list_ascii_of_string]. now rewrite list_ascii_of_string_app.
Qed.

Lemma is_literal_app (a b : string) :
  re.is_literal (a ++ b) = re.is_literal a && re.is_literal b.
Proof.
  unfold re.is_literal. now rewrite list_ascii_of_string_app, forallb_app.
Qed.

Lemma parse_open (c : ascii) (rest : list ascii) (stack : list re.frame)
  (top : re.frame) :
  Ascii.eqb c "?" = false ->
  re.parse ("("%char :: c :: rest) stack top
  = re.parse (c :: rest) (top :: stack) re.empty_frame.
Proof.
  intros Hq.
  destruct c as [[] [] [] [] [] [] [] []]; try discriminate Hq; reflexivity.
Qed.

(** X14: three kinds of malformed pattern make the constructor raise
    [FatalError] with the pattern as it was given: a pattern that starts
    with a repetition character, whatever follows; ordinary characters
    followed by a closing parenthesis, whatever follows; ordinary
    characters with a group that is opened and not closed. *)
Theorem malformed_patterns_are_fatal (action : TypedSymbolClass) :
  (forall (c : ascii) (rest : string),
      c = "*"%char \/ c = "+"%char \/ c = "?"%char ->
      _RegexpStrategyRule.__init__ (String c rest) action
      = FatalError (String c rest)) /\
  (forall before rest : string,
      re.is_literal before = true ->
      _RegexpStrategyRule.__init__ (before ++ ")" ++ rest) action
      = FatalError (before ++ ")" ++ rest)) /\
  (forall before inside : string,
      re.is_literal before = true ->
      re.is_literal inside = true ->
      _RegexpStrategyRule.__init__ (before ++ "(" ++ inside) action
      = FatalError (before ++ "(" ++ inside)).
Proof.
  split; [|split].
  - intros c rest Hc.
    apply _RegexpStrategyRule_init_FatalError. split; [|reflexivity].
    unfold re.compile. rewrite list_ascii_anchored.
    destruct Hc as [-> | [-> | ->]]; reflexivity.
  - intros before rest Hlit.
    apply _RegexpStrategyRule_init_FatalError. split; [|reflexivity].
    unfold re.compile.
    rewrite list_ascii_anchored, list_ascii_of_string_app, <- app_assoc.
    cbn [re.parse Ascii.eqb Chars.backslash]. cbn.
    now rewrite (parse_ordinaries _ _ _ _ Hlit).
  - intros before inside Hbefore Hinside.
    apply _RegexpStrategyRule_init_FatalError. split; [|reflexivity].
    unfold re.compile.
    rewrite list_ascii_anchored, list_ascii_of_string_app, <- app_assoc.
    cbn [re.parse Ascii.eqb Chars.backslash]. cbn.
    rewrite (parse_ordinaries _ _ _ _ Hbefore).
    unfold re.is_literal in Hinside.
    destruct (list_ascii_of_string inside) as [|c cs] eqn:E.
    + reflexivity.
    + assert (Hc : re.is_special c = false).
      { cbn [forallb] in Hinside. apply andb_true_iff in Hinside.
        now apply negb_true_iff. }
      assert (Hq : Ascii.eqb c "?" = false).
      { unfold re.is_special in Hc. cbn [existsb] in Hc.
        repeat (apply orb_false_elim in Hc; destruct Hc as [? Hc]).
        assumption. }
      cbn [app]. rewrite (parse_open _ _ _ _ Hq).
      change (c :: cs ++ ["$"%char]) with ((c :: cs) ++ ["$"%char]).
      now rewrite (parse_ordinaries _ _ _ _ Hinside).
Qed.

Lemma malformed_patterns_are_fatal_witness :
  _RegexpStrategyRule.__init__ (String "+" "rel") TagClass
  = FatalError (String "+" "rel") /\
  _RegexpStrategyRule.__init__ ("rel" ++ ")" ++ "-.*") TagClass
  = FatalError ("rel" ++ ")" ++ "-.*") /\
  _RegexpStrategyRule.__init__ ("rel" ++ "(" ++ "ease") TagClass
  = FatalError ("rel" ++ "(" ++ "ease").
Proof.
  destruct (malformed_patterns_are_fatal TagClass)
    as (leading & closing & opening).
  split; [|split].
  - apply leading. right. left. reflexivity.
  - apply closing. reflexivity.
  - apply opening; reflexivity.
Defined.

(** ** Patterns with a prefix or with two alternatives *)

Lemma fold_left_literals (cs : list ascii) (k : re.regexp) :
  fold_left (fun acc r => re.Cat r acc) (rev (map re.Lit cs)) k
  = fold_right re.Cat k (map re.Lit cs).
Proof.
  rewrite <- (rev_involutive (map re.Lit cs)) at 2.
  now rewrite fold_left_rev_right.
Qed.

Lemma match_true_iff (r : re.regexp) (subject : string) :
  re.match_ r subject = true <-> re.ends r (re.start subject) <> [].
Proof.
  unfold re.match_. destruct (re.ends r (re.start subject)); split;
    congruence.
Qed.

Lemma starts_with_iff (prefix subject : string) :
  (exists rest : string, subject = (prefix ++ rest)%string) <->
  exists rest : list ascii,
    list_ascii_of_string subject = list_ascii_of_string prefix ++ rest.
Proof.
  split.
  - intros (rest & ->). eexists. apply list_ascii_of_string_app.
  - intros (rest & H). exists (string_of_list_ascii rest).
    apply list_ascii_of_string_inj.
    now rewrite list_ascii_of_string_app, list_ascii_of_string_of_list_ascii.
Qed.

Lemma ends_literals_nonempty (cs : list ascii) (k : re.regexp) (n : nat)
  (subject : list ascii) :
  re.ends (fold_right re.Cat k (map re.Lit cs)) (n, subject) <> [] <->
  exists rest, subject = cs ++ rest /\
               re.ends k (n + List.length cs, rest) <> [].
Proof.
  rewrite ends_literals.
  destruct (re.strip_prefix cs subject) as [rest|] eqn:E.
  - apply strip_prefix_Some in E. split.
    + intros H. now exists rest.
    + intros (rest' & Hs & H). rewrite E in Hs.
      apply app_inv_head in Hs. now subst.
  - split; [congruence|]. intros (rest & Hs & _).
    apply strip_prefix_Some in Hs. congruence.
Qed.

Lemma ends_Eol_nonempty (n : nat) (rest : list ascii) :
  re.ends (re.Cat re.Eol re.Eps) (n, rest) <> [] <->
  rest = [] \/ rest = [Chars.newline].
Proof.
  rewrite <- at_end_iff. cbn [re.ends snd].
  destruct (re.at_end rest); cbn; split; congruence.
Qed.

Lemma iterate_any_reaches_end (subject : list ascii) :
  forall (n fuel : nat),
    forallb (fun c => negb (Ascii.eqb c Chars.newline)) subject = true ->
    List.length subject <= fuel ->
    In (n + List.length subject, [])
      (re.iterate fuel (re.ends re.AnyChar) (n, subject)).
Proof.
  induction subject as [|c subject IH]; intros n fuel Hline Hfuel.
  - cbn [List.length]. rewrite Nat.add_0_r. destruct fuel; now left.
  - destruct fuel as [|fuel]; [cbn in Hfuel; lia|].
    cbn [forallb] in Hline. apply andb_true_iff in Hline.
    destruct Hline as [Hc Hline]. apply negb_true_iff in Hc.
    cbn [re.iterate re.ends snd fst]. rewrite Hc. cbn [filter fst].
    rewrite (proj2 (Nat.ltb_lt n (S n)) (Nat.lt_succ_diag_r n)).
    cbn [flat_map]. right. apply in_or_app. left.
    cbn [List.length]. rewrite Nat.add_succ_r.
    apply (IH (S n) fuel Hline). cbn in Hfuel. lia.
Qed.

(** The expression compiled for ordinary characters followed by [.*]. *)
Lemma compile_anchored_prefix (prefix : string) :
  re.is_literal prefix = true ->
  re.compile ("^" ++ (prefix ++ ".*") ++ "$") =
  re.Compiled
    (re.Cat re.Bol
       (fold_right re.Cat
          (re.Cat (re.Repeat re.Star re.AnyChar) (re.Cat re.Eol re.Eps))
          (map re.Lit (list_ascii_of_string prefix)))).
Proof.
  intros H. unfold re.compile.
  rewrite list_ascii_anchored, list_ascii_of_string_app, <- app_assoc.
  cbn [re.parse Ascii.eqb Chars.backslash]. cbn.
  rewrite (parse_ordinaries _ _ _ _ H). cbn.
  unfold re.close, re.sequence. cbn [re.alts re.items fold_left].
  rewrite fold_left_app. cbn [fold_left].
  now rewrite fold_left_literals.
Qed.

(** The expression compiled for two alternatives of ordinary
    characters: the start anchor stays with the first, the end anchor
    with the second. *)
Lemma compile_anchored_alternatives (first second : string) :
  re.is_literal first = true ->
  re.is_literal second = true ->
  re.compile ("^" ++ (first ++ "|" ++ second) ++ "$") =
  re.Compiled
    (re.Alt
       (re.Cat re.Bol
          (fold_right re.Cat re.Eps (map re.Lit (list_ascii_of_string first))))
       (fold_right re.Cat (re.Cat re.Eol re.Eps)
          (map re.Lit (list_ascii_of_string second)))).
Proof.
  intros H1 H2. unfold re.compile.
  rewrite list_ascii_anchored, list_ascii_of_string_app, <- app_assoc.
  cbn [re.parse Ascii.eqb Chars.backslash]. cbn.
  rewrite (parse_ordinaries _ _ _ _ H1). cbn.
  rewrite (parse_ordinaries _ _ _ _ H2). cbn.
  unfold re.close, re.sequence. cbn [re.alts re.items fold_left].
  rewrite app_nil_r, fold_left_app. cbn [fold_left].
  now rewrite !fold_left_literals.
Qed.

(** X15: a pattern rule built from ordinary characters followed by
    [.*] answers, among the names that hold no newline, for exactly
    those that start with these characters. *)
Theorem prefix_pattern_covers_prefixed_names (prefix : string)
  (action : TypedSymbolClass) :
  re.is_literal prefix = true ->
  exists regexp : re.regexp,
    _RegexpStrategyRule.__init__ (prefix ++ ".*") action
    = Instance (RegexpStrategyRule regexp action) /\
    forall (stats : ref) (w : World),
      one_line (name (symbol (heap w stats))) = true ->
      ((exists rest : string,
           name (symbol (heap w stats)) = (prefix ++ rest)%string) ->
       fst (get_symbol (RegexpStrategyRule regexp action) stats w)
       = Some (instantiate action (symbol (heap w stats)))) /\
      ((forall rest : string,
           name (symbol (heap w stats)) <> (prefix ++ rest)%string) ->
       fst (get_symbol (RegexpStrategyRule regexp action) stats w) = None).
Proof.
  intros Hlit. eexists. split.
  - unfold _RegexpStrategyRule.__init__.
    now rewrite (compile_anchored_prefix _ Hlit).
  - intros stats w Hline. rewrite fst_get_symbol, answer_regexp.
    set (subject := name (symbol (heap w stats))) in *.
    match goal with
    | |- context [re.match_ ?r subject] =>
        assert (H : re.match_ r subject = true <->
                    exists rest : string, subject = (prefix ++ rest)%string)
    end.
    { rewrite match_true_iff, starts_with_iff. unfold re.start.
      cbn [re.ends fst snd Nat.eqb flat_map]. rewrite app_nil_r.
      rewrite ends_literals_nonempty. split.
      - intros (rest & Hs & _). now exists rest.
      - intros (rest & Hs). exists rest. split; [exact Hs|].
        assert (Hrest : forallb (fun c => negb (Ascii.eqb c Chars.newline))
                          rest = true).
        { unfold one_line in Hline. rewrite Hs, forallb_app in Hline.
          now apply andb_true_iff in Hline. }
        pose proof (iterate_any_reaches_end rest
                      (0 + List.length (list_ascii_of_string prefix))
                      (List.length rest) Hrest (Nat.le_refl _)) as Hin.
        cbn [re.ends snd]. intros Hnil.
        assert (Hend : In (0 + List.length (list_ascii_of_string prefix)
                           + List.length rest, @nil ascii)
                         (@nil re.position)).
        { rewrite <- Hnil. apply in_flat_map. eexists. split; [exact Hin|].
          cbn. now left. }
        destruct Hend. }
    split.
    + intros Hs. apply H in Hs. now rewrite Hs.
    + intros Hn. destruct (re.match_ _ subject) eqn:Em; [|reflexivity].
      exfalso. destruct (proj1 H eq_refl) as (rest & Hs).
      exact (Hn rest Hs).
Qed.

Lemma prefix_pattern_covers_prefixed_names_witness :
  exists regexp : re.regexp,
    _RegexpStrategyRule.__init__ ("rel-" ++ ".*") TagClass
    = Instance (RegexpStrategyRule regexp TagClass) /\
    fst (get_symbol (RegexpStrategyRule regexp TagClass) 2 usage_world)
    = Some (Tag (mkSymbol 3 "rel-1")) /\
    fst (get_symbol (RegexpStrategyRule regexp TagClass) 1 usage_world)
    = None.
Proof.
  destruct (prefix_pattern_covers_prefixed_names "rel-" TagClass eq_refl)
    as (regexp & built & answers).
  exists regexp. split; [exact built|]. split.
  - apply (answers 2 usage_world); [reflexivity|].
    exists "1". reflexivity.
  - apply (answers 1 usage_world); [reflexivity|].
    intros rest. discriminate.
Defined.

(** X16: a pattern rule built from two alternatives of ordinary
    characters, [first|second], answers for every name that starts with
    [first] and for the name [second] (or [second] and a newline); for no
    other name.  The anchors that [__init__] adds bind inside the
    alternatives. *)
Theorem alternatives_pattern_behaviour (first second : string)
  (action : TypedSymbolClass) :
  re.is_literal first = true ->
  re.is_literal second = true ->
  exists regexp : re.regexp,
    _RegexpStrategyRule.__init__ (first ++ "|" ++ second) action
    = Instance (RegexpStrategyRule regexp action) /\
    forall (stats : ref) (w : World),
      ((exists rest : string,
           name (symbol (heap w stats)) = (first ++ rest)%string) \/
       name (symbol (heap w stats)) = second \/
       name (symbol (heap w stats))
       = (second ++ String Chars.newline "")%string ->
       fst (get_symbol (RegexpStrategyRule regexp action) stats w)
       = Some (instantiate action (symbol (heap w stats)))) /\
      ((forall rest : string,
           name (symbol (heap w stats)) <> (first ++ rest)%string) ->
       name (symbol (heap w stats)) <> second ->
       name (symbol (heap w stats))
       <> (second ++ String Chars.newline "")%string ->
       fst (get_symbol (RegexpStrategyRule regexp action) stats w) = None).
Proof.
  intros H1 H2. eexists. split.
  - unfold _RegexpStrategyRule.__init__.
    now rewrite (compile_anchored_alternatives _ _ H1 H2).
  - intros stats w. rewrite fst_get_symbol, answer_regexp.
    set (subject := name (symbol (heap w stats))).
    match goal with
    | |- context [re.match_ ?r subject] =>
        assert (H : re.match_ r subject = true <->
                    (exists rest : string,
                        subject = (first ++ rest)%string) \/
                    subject = second \/
                    subject = (second ++ String Chars.newline "")%string)
    end.
    { rewrite match_true_iff, starts_with_iff. unfold re.start.
      cbn [re.ends fst snd Nat.eqb flat_map]. rewrite app_nil_r.
      assert (Hsecond :
               re.ends (fold_right re.Cat (re.Cat re.Eol re.Eps)
                          (map re.Lit (list_ascii_of_string second)))
                 (0, list_ascii_of_string subject) <> [] <->
               subject = second \/
               subject = (second ++ String Chars.newline "")%string).
      { rewrite ends_literals_nonempty. split.
        - intros (rest & Hs & Hend). apply ends_Eol_nonempty in Hend.
          destruct Hend as [-> | ->].
          + left. apply list_ascii_of_string_inj. now rewrite Hs, app_nil_r.
          + right. apply list_ascii_of_string_inj.
            now rewrite Hs, list_ascii_of_string_app.
        - intros [-> | ->].
          + exists []. split; [now rewrite app_nil_r|].
            apply ends_Eol_nonempty. now left.
          + exists [Chars.newline].
            split; [apply list_ascii_of_string_app|].
            apply ends_Eol_nonempty. now right. }
      assert (Hfirst :
               re.ends (fold_right re.Cat re.Eps
                          (map re.Lit (list_ascii_of_string first)))
                 (0, list_ascii_of_string subject) <> [] <->
               exists rest, list_ascii_of_string subject
                            = list_ascii_of_string first ++ rest).
      { rewrite ends_literals_nonempty. split.
        - intros (rest & Hs & _). now exists rest.
        - intros (rest & Hs). exists rest. split; [exact Hs|]. discriminate. }
      rewrite <- Hfirst, <- Hsecond. split.
      - intros Hne.
        destruct (re.ends (fold_right re.Cat re.Eps _) _) eqn:E.
        + right. exact Hne.
        + left. discriminate.
      - intros [Hne | Hne] Happ; apply app_eq_nil in Happ;
          destruct Happ; contradiction. }
    split.
    + intros Hs. apply H in Hs. now rewrite Hs.
    + intros N1 N2 N3. destruct (re.match_ _ subject) eqn:Em; [|reflexivity].
      exfalso. destruct (proj1 H eq_refl) as [(rest & Hs) | [Hs | Hs]].
      * exact (N1 rest Hs).
      * exact (N2 Hs).
      * exact (N3 Hs).
Qed.

Lemma alternatives_pattern_behaviour_witness :
  exists regexp : re.regexp,
    _RegexpStrategyRule.__init__ ("foo" ++ "|" ++ "bar") BranchClass
    = Instance (RegexpStrategyRule regexp BranchClass) /\
    fst (get_symbol (RegexpStrategyRule regexp BranchClass) 1 name_world)
    = Some (Branch (mkSymbol 2 "foobar")) /\
    fst (get_symbol (RegexpStrategyRule regexp BranchClass) 3 name_world)
    = Some (Branch (mkSymbol 4 "bar")) /\
    fst (get_symbol (RegexpStrategyRule regexp BranchClass) 2 name_world)
    = None.
Proof.
  destruct (alternatives_pattern_behaviour "foo" "bar" BranchClass
              eq_refl eq_refl)
    as (regexp & built & answers).
  exists regexp. split; [exact built|]. split; [|split].
  - apply (answers 1 name_world). left. exists "bar". reflexivity.
  - apply (answers 3 name_world). right. left. reflexivity.
  - apply (answers 2 name_world); discriminate.
Defined.

(* ================================================================== *)
(** * Commits, and catch-all rules in front *)

(** X17: in a chain made of [UnambiguousUsageRule] and
    [BranchIfCommitsRule] only, in any order and number, that holds
    [BranchIfCommitsRule], a record with commits becomes a branch, also
    when the symbol was created as a tag. *)
Theorem commits_make_a_branch (stats : ref) (w : World) :
  (forall rule, In rule (_rules w) ->
                rule = UnambiguousUsageRule \/ rule = BranchIfCommitsRule) ->
  In BranchIfCommitsRule (_rules w) ->
  (branch_commit_count (heap w stats) > 0)%Z ->
  fst (_get_symbol stats w) = Some (Branch (symbol (heap w stats))).
Proof.
  intros Hrules Hin Hcommits.
  rewrite _get_symbol_chain_answer. cbn [fst].
  destruct (chain_answer (_rules w) (heap w stats)) as [t|] eqn:E.
  - apply chain_answer_In in E. destruct E as (rule & Hrule & Ha).
    destruct (Hrules rule Hrule) as [-> | ->].
    + rewrite answer_UnambiguousUsageRule in Ha. cbv zeta in Ha.
      destruct (Z.gtb_spec (branch_commit_count (heap w stats)) 0); [|lia].
      rewrite orb_true_r in Ha.
      destruct (tag_create_count (heap w stats) >? 0)%Z; cbn in Ha;
        congruence.
    + rewrite answer_BranchIfCommitsRule in Ha.
      destruct (branch_commit_count (heap w stats) >? 0)%Z; congruence.
  - exfalso. rewrite chain_answer_None in E. specialize (E _ Hin).
    rewrite answer_BranchIfCommitsRule in E.
    destruct (Z.gtb_spec (branch_commit_count (heap w stats)) 0);
      [discriminate | lia].
Qed.

Lemma commits_make_a_branch_witness :
  fst (_get_symbol 1 careful_world)
  = Some (Branch (symbol (heap careful_world 1))).
Proof.
  apply (commits_make_a_branch 1 careful_world).
  - intros rule [<-|[<-|[]]]; auto.
  - cbn. auto.
  - cbn. lia.
Defined.

(** X18: a catch-all rule at the head of the chain decides for every
    record, whatever the counters, the names and the rules behind it:
    with [AllTagRule] first every record becomes a tag, with
    [AllBranchRule] first a branch, and nothing is written. *)
Theorem catch_all_in_front_shadows_the_chain (behind : list Rule)
  (symbol_stats : list ref) (w : World) :
  get_symbols symbol_stats (with_rules (AllTagRule :: behind) w)
  = (Some (map (fun stats => Tag (symbol (heap w stats))) symbol_stats),
     with_rules (AllTagRule :: behind) w) /\
  get_symbols symbol_stats (with_rules (AllBranchRule :: behind) w)
  = (Some (map (fun stats => Branch (symbol (heap w stats))) symbol_stats),
     with_rules (AllBranchRule :: behind) w).
Proof.
  assert (Hall : forall (w' : World) (make : Symbol -> TypedSymbol),
             heap w' = heap w ->
             (forall stats,
                 fst (_get_symbol stats w') = Some (make (symbol (heap w stats)))) ->
             get_symbols symbol_stats w'
             = (Some (map (fun stats => make (symbol (heap w stats)))
                        symbol_stats), w')).
  { intros w' make Hheap Hone. rewrite get_symbols_run.
    assert (E : filter (uncovered w') symbol_stats = []).
    { apply filter_nil_iff. intros stats _. apply uncovered_false.
      now rewrite Hone. }
    rewrite E.
    assert (Hmap : flat_map (fun stats => match fst (_get_symbol stats w') with
                                          | Some t => [t]
                                          | None => []
                                          end) symbol_stats
                   = map (fun stats => make (symbol (heap w stats)))
                       symbol_stats).
    { clear E. induction symbol_stats as [|stats rest IH]; [reflexivity|].
      cbn [flat_map map]. now rewrite Hone, IH. }
    now rewrite Hmap. }
  split; apply Hall; try reflexivity; intros stats;
    rewrite _get_symbol_chain_answer; reflexivity.
Qed.
